(** * express-image-provider: the option resolver, the cache-key deriver and
    the response policy of [src/lib/ImgServer.ts], as a shallow embedding.

    JavaScript numbers are IEEE binary64, here Rocq's primitive [float].
    Strings are [string]; an object whose key order is observable (the options
    object walked by [Object.keys]) is an insertion-ordered association list,
    and an object that is only looked up (the query of a request, the headers
    of a response, the files of a disk) is a [gmap]. *)

From Stdlib Require Import ZArith String Ascii List Bool Lia.
From Stdlib Require Import PrimFloat FloatOps SpecFloat Uint63.
From stdpp Require Import gmap strings list pretty.

Open Scope string_scope.

(** ** The JavaScript values the middleware handles *)

Module JS.

(** A query value is a string when it comes from the wire, and [undefined]
    when its key is missing; a field of the options object is a number or a
    string. The arrays and nested objects a query parser can build from
    repeated or bracketed keys are left out. *)
Inductive Value :=
| Undefined
| Num (n : float)
| Str (s : string).

(** [ToBoolean]: what [v && ...] and [v ? a : b] test. *)
Definition ToBoolean (v : Value) : bool :=
  match v with
  | Undefined => false
  | Num n => negb (PrimFloat.is_zero n || PrimFloat.is_nan n)
  | Str s => negb (String.eqb s "")
  end.

(** [SameValueZero], the comparison of [Array.prototype.includes]. *)
Definition SameValueZero (a b : Value) : bool :=
  match a, b with
  | Undefined, Undefined => true
  | Num x, Num y => PrimFloat.eqb x y || (PrimFloat.is_nan x && PrimFloat.is_nan y)
  | Str s, Str t => String.eqb s t
  | _, _ => false
  end.

Definition includes (arr : list Value) (v : Value) : bool :=
  existsb (fun a => SameValueZero a v) arr.

(** [s.lastIndexOf(c)] for a one-character search string: the index of the
    last occurrence, or [-1]. *)
Fixpoint lastIndexOf_from (s : string) (c : ascii) (i found : Z) : Z :=
  match s with
  | EmptyString => found
  | String a s' =>
      lastIndexOf_from s' c (i + 1) (if Ascii.eqb a c then i else found)
  end.

Definition lastIndexOf (s : string) (c : ascii) : Z :=
  lastIndexOf_from s c 0 (-1).

(** [s.substring(start, end)]: both indices are clamped to [0..length] and
    swapped when [start > end]. *)
Definition clamp (n len : Z) : Z := Z.max 0 (Z.min n len).

Definition substring (s : string) (start end_ : Z) : string :=
  let len := Z.of_nat (String.length s) in
  let a := clamp start len in
  let b := clamp end_ len in
  let lo := Z.min a b in
  let hi := Z.max a b in
  String.substring (Z.to_nat lo) (Z.to_nat (hi - lo)) s.

(** An object literal with string keys that are not array indices: its own
    keys are enumerated in insertion order, and assigning to a key that is
    already there keeps its place. *)
Definition Object := list (string * Value).

Fixpoint get (o : Object) (k : string) : Value :=
  match o with
  | [] => Undefined
  | (k', v) :: o' => if String.eqb k k' then v else get o' k
  end.

Fixpoint set (o : Object) (k : string) (v : Value) : Object :=
  match o with
  | [] => [(k, v)]
  | (k', v') :: o' =>
      if String.eqb k k' then (k', v) :: o' else (k', v') :: set o' k v
  end.

Definition keys (o : Object) : list string := map fst o.

End JS.

(** ** The platform: built-ins and libraries the repository calls

    Node's and ECMAScript's built-ins and the [slug] package are not code of
    the repository; the model takes them as an interface, and a theorem about
    the server holds for every implementation of it. *)

Class Platform := {
  (** [Number(s)] on a string, ECMAScript's StringToNumber *)
  StringToNumber : string -> float;
  (** a number inside a template literal, ECMAScript's Number::toString *)
  NumberToString : float -> string;
  (** [slug(s, {replacement: '-', lower: true, trim: true, symbols: true})] *)
  slug : string -> string;
  (** [path.join(a, b)] and [path.normalize(p)] *)
  path_join : string -> string -> string;
  path_normalize : string -> string;
  (** [new Date(ms).toUTCString()] *)
  toUTCString : float -> string;
  (** [__dirname] inside [src/lib/ImgServer.ts] and inside [src/app.ts] *)
  lib_dirname : string;
  app_dirname : string
}.

(** ** Configuration and the server object *)

(** [interface ImgServerConfig]; [return404] is its one optional field. *)
Record ImgServerConfig := {
  imgPath : string;
  cacheDir : string;
  cacheTime : float;
  maxWidth : float;
  maxHeight : float;
  quality : float;
  allowedExts : list string;
  defaultExt : string;
  return404 : option bool;
  timeout : float;
  defaultImg : string;
  resizeMode : string
}.

(** The two entries of [_fileHeaders]. *)
Record FileHeaders := {
  Cache_Control : string;
  Expires : string
}.

(** The fields of [class ImgServer] that are assigned after construction.
    [timeoutFunction], [cacheName] and [cachePath] are declared without an
    initialiser, so they are [undefined] ([None]) until a request sets them;
    a timer handle is the number [setTimeout] returned. *)
Record ImgServer := {
  config : ImgServerConfig;
  timeoutFunction : option nat;
  cacheName : option string;
  cachePath : option string;
  _fileHeaders : FileHeaders
}.

Definition resizeModesArray : list string := ["cover"; "contain"; "fill"].

Definition strings (l : list string) : list JS.Value := map JS.Str l.

(** ** The disk, exceptions and promises *)

(** What [fs] reports about a path that exists. *)
Record Node := {
  is_directory : bool;
  is_writable : bool
}.

Abbreviation Disk := (gmap string Node).

Definition regular_file : Node := {| is_directory := false; is_writable := true |}.

(** [fs.existsSync(p)] and the promisified [fs.exists(p)] *)
Definition existsSync (fs : Disk) (p : string) : bool :=
  match fs !! p with Some _ => true | None => false end.

(** [fs.statSync(p).isDirectory()], called on a path that exists *)
Definition isDirectory (fs : Disk) (p : string) : bool :=
  match fs !! p with Some n => is_directory n | None => false end.

(** [fs.accessSync(p, fs.constants.W_OK)] returns ([true]) or throws *)
Definition accessSync_W_OK (fs : Disk) (p : string) : bool :=
  match fs !! p with Some n => is_writable n | None => false end.

(** How a synchronous call completes. *)
Inductive Completion (A : Type) :=
| Normal (a : A)
| Throw (error : string).

Arguments Normal {A} a.
Arguments Throw {A} error.

(** How the promise of an [async] call settles: a [throw] inside the body
    rejects the promise and does not reach the caller. *)
Inductive Promise (A : Type) :=
| Fulfilled (a : A)
| Rejected (error : string).

Arguments Fulfilled {A} a.
Arguments Rejected {A} error.

Definition async {A} (c : Completion A) : Promise A :=
  match c with
  | Normal a => Fulfilled a
  | Throw e => Rejected e
  end.

(** A method body: it reads and assigns the fields of [this], and completes
    or throws. An assignment made before a [throw] stays. *)
Definition Method (A : Type) : Type := ImgServer -> ImgServer * Completion A.

Definition ret {A} (a : A) : Method A := fun this => (this, Normal a).

Definition throw {A} (error : string) : Method A := fun this => (this, Throw error).

Definition bind {A B} (m : Method A) (k : A -> Method B) : Method B :=
  fun this =>
    match m this with
    | (this', Normal a) => k a this'
    | (this', Throw e) => (this', Throw e)
    end.

Notation "x <- m ;; k" := (bind m (fun x => k))
  (at level 100, m at next level, right associativity).
Notation "m ;; k" := (bind m (fun _ => k))
  (at level 100, right associativity).

Definition read {A} (f : ImgServer -> A) : Method A := fun this => (this, Normal (f this)).

Definition assign (f : ImgServer -> ImgServer) : Method unit :=
  fun this => (f this, Normal tt).

Definition set_config (c : ImgServerConfig) (this : ImgServer) : ImgServer :=
  {| config := c; timeoutFunction := timeoutFunction this;
     cacheName := cacheName this; cachePath := cachePath this;
     _fileHeaders := _fileHeaders this |}.

Definition set_fileHeaders (h : FileHeaders) (this : ImgServer) : ImgServer :=
  {| config := config this; timeoutFunction := timeoutFunction this;
     cacheName := cacheName this; cachePath := cachePath this;
     _fileHeaders := h |}.

Definition set_cacheName (n : string) (this : ImgServer) : ImgServer :=
  {| config := config this; timeoutFunction := timeoutFunction this;
     cacheName := Some n; cachePath := cachePath this;
     _fileHeaders := _fileHeaders this |}.

Definition set_cachePath (p : string) (this : ImgServer) : ImgServer :=
  {| config := config this; timeoutFunction := timeoutFunction this;
     cacheName := cacheName this; cachePath := Some p;
     _fileHeaders := _fileHeaders this |}.

Definition set_timeoutFunction (t : nat) (this : ImgServer) : ImgServer :=
  {| config := config this; timeoutFunction := Some t;
     cacheName := cacheName this; cachePath := cachePath this;
     _fileHeaders := _fileHeaders this |}.

Section Engine.

Context `{Platform}.

(** [Number(v)] *)
Definition Number (v : JS.Value) : float :=
  match v with
  | JS.Undefined => PrimFloat.nan
  | JS.Num n => n
  | JS.Str s => StringToNumber s
  end.

(** [`${v}`] *)
Definition ToString (v : JS.Value) : string :=
  match v with
  | JS.Undefined => "undefined"
  | JS.Num n => NumberToString n
  | JS.Str s => s
  end.

(** [private readonly _defaultConfig], the same literal in every instance. *)
Definition _defaultConfig : ImgServerConfig := {|
  imgPath := lib_dirname +:+ "/uploads";
  cacheDir := lib_dirname +:+ "/cache";
  cacheTime := (1000 * 60 * 60 * 24 * 7)%float;
  maxWidth := 1920%float;
  maxHeight := 1080%float;
  quality := 80%float;
  allowedExts := ["webp"; "jpg"; "jpeg"; "png"; "gif"];
  defaultExt := "webp";
  timeout := 5000%float;
  defaultImg := "default.jpg";
  return404 := Some false;
  resizeMode := "cover"
|}.

(** [private readonly _defaultRequestConfig]: an object literal, so its keys
    are in the order written. *)
Definition _defaultRequestConfig : JS.Object := [
  ("width", JS.Num (maxWidth _defaultConfig));
  ("height", JS.Num (maxHeight _defaultConfig));
  ("quality", JS.Num (quality _defaultConfig));
  ("ext", JS.Str (defaultExt _defaultConfig));
  ("resizeMode", JS.Str (resizeMode _defaultConfig))
].

(** The test of [parseOptions] on a numeric field:
    [v && Number(v) && Number(v) < bound]. *)
Definition numeric_below (v : JS.Value) (bound : float) : bool :=
  JS.ToBoolean v && JS.ToBoolean (JS.Num (Number v)) && PrimFloat.ltb (Number v) bound.

(** [parseOptions(query)], a method: [this] is the server the request reached.
    The body reads [this._defaultRequestConfig] and [this._defaultConfig],
    which are the literals above in every instance, and never [this.config]. *)
Definition parseOptions (this : ImgServer) (query : gmap string JS.Value) : JS.Object :=
  let q (k : string) : JS.Value := default JS.Undefined (query !! k) in
  let options := _defaultRequestConfig in
  let options := JS.set options "width"
    (if numeric_below (q "width") (maxWidth _defaultConfig)
     then JS.Num (Number (q "width"))
     else JS.Num (maxWidth _defaultConfig)) in
  let options := JS.set options "height"
    (if numeric_below (q "height") (maxHeight _defaultConfig)
     then JS.Num (Number (q "height"))
     else JS.Num (maxHeight _defaultConfig)) in
  let options := JS.set options "quality"
    (if numeric_below (q "quality") 100%float
     then JS.Num (Number (q "quality"))
     else JS.Num (quality _defaultConfig)) in
  let options := JS.set options "ext"
    (if JS.ToBoolean (q "ext")
        && JS.includes (strings (allowedExts _defaultConfig)) (q "ext")
     then q "ext"
     else JS.Str (defaultExt _defaultConfig)) in
  let options := JS.set options "resizeMode"
    (if JS.ToBoolean (q "resizeMode")
        && JS.includes (strings resizeModesArray) (q "resizeMode")
     then q "resizeMode"
     else JS.Str (resizeMode _defaultConfig)) in
  options.

(** The string [loadCacheName] hands to [slug]: one [-key-value] per own key
    of [options], in the order of [Object.keys], then [-fileName]. *)
Definition cacheName_raw (path : string) (options : JS.Object) : string :=
  let fileName := JS.substring path 0 (JS.lastIndexOf path ".") in
  let cacheName :=
    fold_left
      (fun cacheName key =>
         cacheName +:+ "-" +:+ key +:+ "-" +:+ ToString (JS.get options key))
      (JS.keys options) "" in
  cacheName +:+ "-" +:+ fileName.

(** [loadCacheName(path, options)] *)
Definition loadCacheName (path : string) (options : JS.Object) : string :=
  let ext := "." +:+ ToString (JS.get options "ext") in
  slug (cacheName_raw path options) +:+ ext.

(** ** Startup *)

(** [{ ...this._defaultConfig, ...config }]: every field of the interface but
    [return404] is required, so the given configuration wins everywhere and
    the default only fills a missing [return404]. *)
Definition spread_config (d c : ImgServerConfig) : ImgServerConfig := {|
  imgPath := imgPath c;
  cacheDir := cacheDir c;
  cacheTime := cacheTime c;
  maxWidth := maxWidth c;
  maxHeight := maxHeight c;
  quality := quality c;
  allowedExts := allowedExts c;
  defaultExt := defaultExt c;
  return404 := match return404 c with Some b => Some b | None => return404 d end;
  timeout := timeout c;
  defaultImg := defaultImg c;
  resizeMode := resizeMode c
|}.

(** [if (this.config.return404)] *)
Definition returns404 (c : ImgServerConfig) : bool :=
  match return404 c with Some b => b | None => false end.

(** [validateWritableDir(dir)] *)
Definition validateWritableDir (fs : Disk) (dir : string) : Method unit :=
  if negb (existsSync fs dir) then throw (dir +:+ " does not exist")
  else if negb (isDirectory fs dir) then throw (dir +:+ " is not a directory")
  else if accessSync_W_OK fs dir then ret tt
  else throw (dir +:+ " is not writable").

(** [archiveExists(path)] *)
Definition archiveExists (fs : Disk) (path : string) : bool := existsSync fs path.

(** [validateDefaultImgExists(file)] *)
Definition validateDefaultImgExists (fs : Disk) (file : string) : Method unit :=
  c <- read config ;;
  if negb (returns404 c) && negb (archiveExists fs file)
  then throw (file +:+ " does not exist")
  else ret tt.

(** [setFileHeaders()]; [now] is what [Date.now()] returns. *)
Definition setFileHeaders (now : float) : Method unit :=
  c <- read config ;;
  assign (set_fileHeaders {|
    Cache_Control := "public, max-age=" +:+ NumberToString (cacheTime c);
    Expires := toUTCString (now + cacheTime c)%float
  |}).

(** [init(config)] *)
Definition init (fs : Disk) (now : float) (config : ImgServerConfig) : Method unit :=
  assign (set_config (spread_config _defaultConfig config)) ;;
  validateWritableDir fs (cacheDir config) ;;
  validateWritableDir fs (imgPath config) ;;
  setFileHeaders now ;;
  validateDefaultImgExists fs (defaultImg config).

(** The object before the constructor body runs: the field initialisers have
    run, [config] is not assigned yet (the first statement of [init] assigns
    it, and nothing reads it before; the value here is a placeholder). *)
Definition allocated : ImgServer := {|
  config := _defaultConfig;
  timeoutFunction := None;
  cacheName := None;
  cachePath := None;
  _fileHeaders := {| Cache_Control := ""; Expires := "" |}
|}.

(** [new ImgServer(config)]: the constructor calls [this.init(config)], an
    [async] method, and drops the promise. What the caller gets is the first
    component; the second is the dropped promise. *)
Definition new_ImgServer (fs : Disk) (now : float) (config : ImgServerConfig)
  : Completion ImgServer * Promise unit :=
  let '(this, completion) := init fs now config allocated in
  (Normal this, async completion).

(** The configuration [src/app.ts] constructs its server with. *)
Definition app_config : ImgServerConfig := {|
  imgPath := app_dirname +:+ "/uploads";
  cacheDir := app_dirname +:+ "/cache";
  cacheTime := (1000 * 60 * 60 * 24 * 7)%float;
  maxWidth := 1920%float;
  maxHeight := 1080%float;
  quality := 80%float;
  allowedExts := ["webp"; "jpg"; "jpeg"; "png"; "gif"];
  defaultExt := "webp";
  timeout := 5000%float;
  defaultImg := app_dirname +:+ "/uploads/placeholder-image.png";
  return404 := Some false;
  resizeMode := "cover"
|}.

(** [const server = new ImgServer({ ... })] of [src/app.ts] *)
Definition server (fs : Disk) (now : float) : Completion ImgServer * Promise unit :=
  new_ImgServer fs now app_config.

(** ** Requests and responses *)

Record Request := {
  req_path : string;
  req_query : gmap string JS.Value
}.

(** What answers the request: a text, a file, or Express itself after the
    request was handed on with [next]. *)
Inductive Body :=
| Text (s : string)
| File (p : string)
| NextHandler.

(** The part of an Express response the middleware touches. The response is
    finished once it has been answered; later calls on it change nothing the
    client sees. *)
Record Response := {
  headers : gmap string string;
  statusCode : Z;
  body : option Body
}.

Definition finished (res : Response) : bool :=
  match body res with Some _ => true | None => false end.

(** [res.removeHeader(name)] *)
Definition removeHeader (name : string) (res : Response) : Response :=
  if finished res then res
  else {| headers := delete name (headers res);
          statusCode := statusCode res; body := body res |}.

(** [res.status(code)] *)
Definition status (code : Z) (res : Response) : Response :=
  if finished res then res
  else {| headers := headers res; statusCode := code; body := body res |}.

(** [res.send(text)] *)
Definition send (text : string) (res : Response) : Response :=
  if finished res then res
  else {| headers := headers res; statusCode := statusCode res;
          body := Some (Text text) |}.

(** The [Cache-Control] of a file sent with the default [maxAge] of
    [res.sendFile]. *)
Definition default_Cache_Control : string := "public, max-age=0".

(** What [send] does to [Cache-Control] once the headers of the options are
    set, [if (this._cacheControl && !res.getHeader('Cache-Control'))]: a
    header that is absent or the empty string gets the default. *)
Definition send_Cache_Control (hs : gmap string string) : gmap string string :=
  match hs !! "Cache-Control" with
  | Some v =>
      if String.eqb v "" then <["Cache-Control" := default_Cache_Control]> hs
      else hs
  | None => <["Cache-Control" := default_Cache_Control]> hs
  end.

(** [res.sendFile(path, { headers }, callback)]: when [path] is a file the
    headers of the options are set, [send] completes [Cache-Control], and the
    file is sent. Otherwise nothing is set and the error goes to the callback
    when there is one; without a callback Express hands the request on with
    [next], and the answer is Express's own (its status and headers are not
    modelled). The second component is [err]. [Content-Type], [ETag],
    [Last-Modified] and [Accept-Ranges], which [send] derives from the file,
    are not part of this model. *)
Definition sendFile (fs : Disk) (path : string) (options : option FileHeaders)
    (callback : bool) (res : Response) : Response * bool :=
  if finished res then (res, true)
  else if existsSync fs path && negb (isDirectory fs path) then
    let hs :=
      match options with
      | Some h =>
          <["Expires" := Expires h]>
            (<["Cache-Control" := Cache_Control h]> (headers res))
      | None => headers res
      end in
    ({| headers := send_Cache_Control hs; statusCode := statusCode res;
        body := Some (File path) |},
     false)
  else if callback then (res, true)
  else ({| headers := headers res; statusCode := statusCode res;
           body := Some NextHandler |},
        true).

(** ** The request path *)

(** [respondWith404(res)] *)
Definition respondWith404 (this : ImgServer) (fs : Disk) (res : Response) : Response :=
  let res := removeHeader "Cache-Control" res in
  let res := removeHeader "Expires" res in
  if returns404 (config this) then send "404" (status 404 res)
  else fst (sendFile fs (path_normalize (defaultImg (config this))) None false res).

(** [getImg(path, options)]: [sharp] stands for the codec pipeline, [true]
    when it wrote its result to [this.cachePath]. *)
Definition getImg (this : ImgServer) (fs : Disk) (sharp : string -> JS.Object -> bool)
    (path : string) (options : JS.Object) : Disk * bool :=
  match cachePath this with
  | Some target =>
      if sharp path options then (<[target := regular_file]> fs, true)
      else (fs, false)
  | None => (fs, false)
  end.

(** When the timer set by the middleware runs its callback: never (it was
    cleared first), while the request waits for [archiveExists], or while it
    waits for [getImg]. *)
Inductive Firing :=
| NotFired
| DuringExists
| DuringTransform.

(** What the surroundings decide for one request. *)
Record World := {
  disk : Disk;
  sharp : string -> JS.Object -> bool;
  fires : Firing;
  timer : nat
}.

(** [middleware(req, res, next)], one request handled on its own: the server
    object, the disk and the response after it. *)
Definition middleware (this : ImgServer) (w : World) (req : Request) (res : Response)
  : ImgServer * Disk * Response :=
  let fs := disk w in
  let options := parseOptions this (req_query req) in
  let this := set_cacheName (loadCacheName (req_path req) options) this in
  let target := path_join (cacheDir (config this)) (loadCacheName (req_path req) options) in
  let this := set_cachePath target this in
  let fileName := path_join (imgPath (config this)) (req_path req) in
  let '(res, err) := sendFile fs target (Some (_fileHeaders this)) true res in
  if negb err then (this, fs, res)
  else
    let this := set_timeoutFunction (timer w) this in
    let res :=
      match fires w with DuringExists => respondWith404 this fs res | _ => res end in
    if negb (archiveExists fs fileName) then (this, fs, respondWith404 this fs res)
    else
      let res :=
        match fires w with DuringTransform => respondWith404 this fs res | _ => res end in
      let '(fs, img) := getImg this fs (sharp w) fileName options in
      if negb img then (this, fs, respondWith404 this fs res)
      else (this, fs, fst (sendFile fs target (Some (_fileHeaders this)) false res)).

End Engine.

(** ** ECMAScript on plain integers

    What [Number(s)] and a template literal do on the part of their domain
    that can be written down exactly here: decimal integer literals of at
    most fifteen digits, and integer-valued numbers of magnitude below 2^53.
    Both are exact in binary64. *)

Module Ecma.

Definition digit (c : ascii) : option N :=
  let n := N_of_ascii c in
  if ((48 <=? n) && (n <=? 57))%N then Some (n - 48)%N else None.

Fixpoint digits (s : string) (acc : N) : option N :=
  match s with
  | EmptyString => Some acc
  | String c s' =>
      match digit c with
      | Some d => digits s' (10 * acc + d)%N
      | None => None
      end
  end.

(** The number an optional minus sign and one to fifteen decimal digits
    convert to. *)
Definition decimal_literal (s : string) : option float :=
  let '(negative, body) :=
    match s with
    | String "-" s' => (true, s')
    | _ => (false, s)
    end in
  if ((1 <=? String.length body) && (String.length body <=? 15))%nat then
    match digits body 0 with
    | Some n =>
        let f := PrimFloat.of_uint63 (Uint63.of_Z (Z.of_N n)) in
        Some (if negative then PrimFloat.opp f else f)
    | None => None
    end
  else None.

(** The integer an integer-valued number of magnitude below 2^53 is; such a
    number is printed as that integer in decimal. *)
Definition integer_value (n : float) : option Z :=
  match Prim2SF n with
  | S754_zero _ => Some 0%Z
  | S754_finite s m e =>
      let v :=
        if (0 <=? e)%Z then Some (Z.pos m * 2 ^ e)%Z
        else if (Z.pos m mod 2 ^ (- e) =? 0)%Z then Some (Z.pos m / 2 ^ (- e))%Z
        else None in
      match v with
      | Some z => if (z <? 2 ^ 53)%Z then Some (if s then (- z)%Z else z) else None
      | None => None
      end
  | _ => None
  end.

End Ecma.

(** ** An example platform and an example world

    The platform is ECMAScript on plain integers and a placeholder elsewhere;
    the theorems about every platform do not use it. *)

Module Example.

(** The empty string converts to [0]; what is not a decimal literal is taken
    as not numeric. *)
Definition to_number (s : string) : float :=
  match s with
  | EmptyString => 0%float
  | _ => default PrimFloat.nan (Ecma.decimal_literal s)
  end.

Definition number_text (n : float) : string :=
  match Ecma.integer_value n with
  | Some z => pretty z
  | None =>
      match Prim2SF n with
      | S754_infinity false => "Infinity"
      | S754_infinity true => "-Infinity"
      | _ => "NaN"
      end
  end.

Definition lower (c : ascii) : ascii :=
  let n := N_of_ascii c in
  if ((65 <=? n) && (n <=? 90))%N then ascii_of_N (n + 32) else c.

Definition word_char (c : ascii) : bool :=
  let n := N_of_ascii (lower c) in
  ((48 <=? n) && (n <=? 57) || (97 <=? n) && (n <=? 122))%N.

Fixpoint slug_from (s : string) (pending started : bool) : string :=
  match s with
  | EmptyString => EmptyString
  | String c s' =>
      if word_char c then
        (if pending && started then "-" else "")
          +:+ String (lower c) (slug_from s' false true)
      else slug_from s' true started
  end.

(** Modelled from the spec: the [slug] package is not part of the
    repository; section 4.2 says the step "lower-cases, replaces
    whitespace/symbols with a single separator character, and trims
    leading/trailing separators". *)
Definition slugify (s : string) : string := slug_from s false false.

Definition platform : Platform := {|
  StringToNumber := to_number;
  NumberToString := number_text;
  slug := slugify;
  path_join := fun a b =>
    match b with
    | String "/" _ => a +:+ b
    | _ => a +:+ "/" +:+ b
    end;
  path_normalize := fun p => p;
  toUTCString := fun ms => "ms " +:+ number_text ms;
  lib_dirname := "/srv/lib";
  app_dirname := "/srv"
|}.

#[local] Existing Instance platform.

(** A disk on which the server of [src/app.ts] starts. *)
Definition files : Disk :=
  let directory := {| is_directory := true; is_writable := true |} in
  <["/srv/uploads" := directory]>
    (<["/srv/cache" := directory]>
       (<["/srv/uploads/placeholder-image.png" := regular_file]>
          (<["/srv/uploads/photo.jpg" := regular_file]> ∅))).

(** The server object of [src/app.ts] after its constructor, started on
    [files] at time [0]. *)
Definition server : ImgServer := fst (init files 0 app_config allocated).

(** A configuration that allows PNG only, and its server. *)
Definition png_only : ImgServerConfig := {|
  imgPath := "/srv/uploads";
  cacheDir := "/srv/cache";
  cacheTime := 604800000%float;
  maxWidth := 1920%float;
  maxHeight := 1080%float;
  quality := 80%float;
  allowedExts := ["png"];
  defaultExt := "png";
  return404 := Some true;
  timeout := 5000%float;
  defaultImg := "/srv/uploads/placeholder-image.png";
  resizeMode := "cover"
|}.

Definition png_server : ImgServer := fst (init files 0 png_only allocated).

(** A response nothing was sent on, a world whose codec succeeds and whose
    timer does not run out, and two requests: one for a source that is on
    the disk and one for a source that is not. *)
Definition fresh : Response := {| headers := ∅; statusCode := 200; body := None |}.

Definition world : World := {|
  disk := files;
  sharp := fun _ _ => true;
  fires := NotFired;
  timer := 1
|}.

(** The same world with a timer that runs out during the transform. *)
Definition slow_world : World := {|
  disk := files;
  sharp := fun _ _ => true;
  fires := DuringTransform;
  timer := 1
|}.

Definition photo : Request := {| req_path := "/photo.jpg"; req_query := ∅ |}.

Definition missing : Request := {| req_path := "/missing.jpg"; req_query := ∅ |}.

(** The world after [photo] was handled in [world]: its cache file is on the
    disk; the codec would fail now and the timer would run out at once. *)
Definition later_world : World := {|
  disk := (middleware server world photo fresh).1.2;
  sharp := fun _ _ => false;
  fires := DuringExists;
  timer := 2
|}.

(** The disk [files] with an image directory that is read-only. *)
Definition readonly_uploads : Disk :=
  <["/srv/uploads" := {| is_directory := true; is_writable := false |}]> files.

(** A query with an empty width and a key the resolver does not know. *)
Definition tracking_query : gmap string JS.Value :=
  <["utm_source" := JS.Str "mail"]> {[ "width" := JS.Str "" ]}.

End Example.

(** ** Vocabulary of the statements *)

Section Vocabulary.

Context `{Platform}.

(** [query.k]: [undefined] when the key is absent. *)
Definition requested (query : gmap string JS.Value) (k : string) : JS.Value :=
  default JS.Undefined (query !! k).

(** A field of the record the resolver returns. *)
Definition resolved (this : ImgServer) (query : gmap string JS.Value) (k : string) : JS.Value :=
  JS.get (parseOptions this query) k.

(** A requested value is present when the key is there with a value that is
    not the empty string ([?width=] sends the empty string). *)
Definition present (v : JS.Value) : Prop := v <> JS.Undefined /\ v <> JS.Str "".

Definition numeric (v : JS.Value) : Prop := PrimFloat.is_nan (Number v) = false.

Definition nonzero (v : JS.Value) : Prop := PrimFloat.is_zero (Number v) = false.

Definition below (v : JS.Value) (bound : float) : Prop :=
  PrimFloat.ltb (Number v) bound = true.

(** [lo <= n <= hi] on numbers. *)
Definition in_range (lo hi n : float) : Prop :=
  PrimFloat.leb lo n = true /\ PrimFloat.leb n hi = true.

(** The rule of section 4.1 for a bounded numeric field, as the spec words it:
    the requested value when it is present, numeric and strictly below the
    bound, the bound otherwise. *)
Definition bounded_rule_as_stated (v : JS.Value) (bound : float) (r : JS.Value) : Prop :=
  (present v /\ numeric v /\ below v bound -> r = JS.Num (Number v)) /\
  (~ (present v /\ numeric v /\ below v bound) -> r = JS.Num bound).

(** The rule the resolver follows: zero is refused as well. *)
Definition bounded_rule (v : JS.Value) (bound : float) (r : JS.Value) : Prop :=
  (present v /\ numeric v /\ nonzero v /\ below v bound -> r = JS.Num (Number v)) /\
  (~ (present v /\ numeric v /\ nonzero v /\ below v bound) -> r = JS.Num bound).

(** The platform converts decimal integer literals as ECMAScript does. *)
Definition converts_decimal : Prop :=
  forall s f, Ecma.decimal_literal s = Some f -> StringToNumber s = f.

(** The platform prints integer-valued numbers as ECMAScript does. *)
Definition prints_integers : Prop :=
  forall n z, Ecma.integer_value n = Some z -> NumberToString n = pretty z.

(** The invariant of section 3 on a resolved record, as the spec words it,
    against the bounds and formats of a configuration. *)
Definition resolved_invariant_as_stated (cfg : ImgServerConfig) (o : JS.Object) : Prop :=
  exists w h q e m,
    o = [("width", JS.Num w); ("height", JS.Num h); ("quality", JS.Num q);
         ("ext", JS.Str e); ("resizeMode", JS.Str m)]
    /\ in_range 1 (maxWidth cfg) w
    /\ in_range 1 (maxHeight cfg) h
    /\ in_range 1 99 q
    /\ e ∈ allowedExts cfg
    /\ m ∈ resizeModesArray.

(** A number the resolver lets through: neither zero nor NaN. *)
Definition usable (n : float) : Prop :=
  PrimFloat.is_zero n = false /\ PrimFloat.is_nan n = false.

(** What the resolver guarantees instead: no lower bound, and the upper bound
    is reached only by the fallback. *)
Definition resolved_invariant (cfg : ImgServerConfig) (o : JS.Object) : Prop :=
  exists w h q e m,
    o = [("width", JS.Num w); ("height", JS.Num h); ("quality", JS.Num q);
         ("ext", JS.Str e); ("resizeMode", JS.Str m)]
    /\ usable w /\ (PrimFloat.ltb w (maxWidth cfg) = true \/ w = maxWidth cfg)
    /\ usable h /\ (PrimFloat.ltb h (maxHeight cfg) = true \/ h = maxHeight cfg)
    /\ usable q /\ PrimFloat.ltb q 100 = true
    /\ e ∈ allowedExts cfg
    /\ m ∈ resizeModesArray.

(** A configuration that keeps the built-in bounds and formats, as the one of
    [src/app.ts] does. *)
Definition keeps_built_in_bounds (cfg : ImgServerConfig) : Prop :=
  maxWidth cfg = 1920%float
  /\ maxHeight cfg = 1080%float
  /\ allowedExts cfg = ["webp"; "jpg"; "jpeg"; "png"; "gif"].

(** [c] occurs in [s]. *)
Fixpoint contains (c : ascii) (s : string) : bool :=
  match s with
  | EmptyString => false
  | String a s' => Ascii.eqb a c || contains c s'
  end.

(** The place of the first [c] in [s], the length of [s] when there is none. *)
Fixpoint first_index (c : ascii) (s : string) : nat :=
  match s with
  | EmptyString => 0
  | String a s' => if Ascii.eqb a c then 0 else S (first_index c s')
  end.

(** Every character of [s] is one of [alphabet]. *)
Fixpoint chars_of (alphabet s : string) : bool :=
  match s with
  | EmptyString => true
  | String a s' => contains a alphabet && chars_of alphabet s'
  end.

(** The characters ECMAScript prints a number with: digits, sign, point,
    exponent, and the letters of [Infinity] and [NaN]. *)
Definition number_alphabet : string := "0123456789+-.eInfityNa".

(** Two numbers are printed apart: in the alphabet of numbers, and with
    different texts unless they are the same number. *)
Definition printed_apart (a b : JS.Value) : Prop :=
  match a, b with
  | JS.Num x, JS.Num y =>
      chars_of number_alphabet (NumberToString x) = true
      /\ chars_of number_alphabet (NumberToString y) = true
      /\ (NumberToString x = NumberToString y -> x = y)
  | _, _ => True
  end.

(** [slug] does not merge the two strings. *)
Definition slug_apart (a b : string) : Prop := slug a = slug b -> a = b.

(** [path] is a file [res.sendFile] can send. *)
Definition sendable (fs : Disk) (path : string) : bool :=
  existsSync fs path && negb (isDirectory fs path).

(** The cache file of a request and its source file, as the middleware
    names them. *)
Definition cache_file (this : ImgServer) (req : Request) : string :=
  path_join (cacheDir (config this))
    (loadCacheName (req_path req) (parseOptions this (req_query req))).

Definition source_file (this : ImgServer) (req : Request) : string :=
  path_join (imgPath (config this)) (req_path req).

(** The request ends on a failure path: the cache file cannot be sent, and
    the source is missing, or the transform fails, or the timer runs out. *)
Definition fails (this : ImgServer) (w : World) (req : Request) : Prop :=
  sendable (disk w) (cache_file this req) = false
  /\ (archiveExists (disk w) (source_file this req) = false
      \/ sharp w (source_file this req) (parseOptions this (req_query req)) = false
      \/ fires w <> NotFired).

(** The request ends on a success path: a cache hit, or a miss whose source
    is there and whose transform succeeds before the timer runs out. *)
Definition succeeds (this : ImgServer) (w : World) (req : Request) : Prop :=
  sendable (disk w) (cache_file this req) = true
  \/ (archiveExists (disk w) (source_file this req) = true
      /\ sharp w (source_file this req) (parseOptions this (req_query req)) = true
      /\ fires w = NotFired).

(** The fallback image of the configuration, as [respondWith404] names it. *)
Definition fallback_file (this : ImgServer) : string :=
  path_normalize (defaultImg (config this)).

(** The response of a failure path: the two caching headers removed, then a
    404 with the body [404]; or the fallback image, to which [send] gives its
    default [Cache-Control]; or, when the fallback image is not a file on
    disk, Express's own answer. *)
Definition failure_response (this : ImgServer) (fs : Disk) (res : Response) : Response :=
  let hs := delete "Expires" (delete "Cache-Control" (headers res)) in
  if returns404 (config this) then
    {| headers := hs; statusCode := 404; body := Some (Text "404") |}
  else if sendable fs (fallback_file this) then
    {| headers := <["Cache-Control" := default_Cache_Control]> hs;
       statusCode := statusCode res;
       body := Some (File (fallback_file this)) |}
  else
    {| headers := hs; statusCode := statusCode res; body := Some NextHandler |}.


(** The [Cache-Control] a file is served with when the options hand [v]. *)
Definition served_Cache_Control (v : string) : string :=
  if String.eqb v "" then default_Cache_Control else v.

(** The response of a success path: the cache file, with the two headers
    computed at startup, [Cache-Control] completed by [send]. *)
Definition success_response (this : ImgServer) (req : Request) (res : Response) : Response := {|
  headers := send_Cache_Control
               (<["Expires" := Expires (_fileHeaders this)]>
                  (<["Cache-Control" := Cache_Control (_fileHeaders this)]> (headers res)));
  statusCode := statusCode res;
  body := Some (File (cache_file this req))
|}.

(** The rule of [parseOptions] for a numeric field whose fallback is not its
    bound: the requested value when it is present, numeric, not zero and
    strictly below the bound, the fallback otherwise. *)
Definition fallback_rule (v : JS.Value) (bound fallback : float) (r : JS.Value) : Prop :=
  (present v /\ numeric v /\ nonzero v /\ below v bound -> r = JS.Num (Number v)) /\
  (~ (present v /\ numeric v /\ nonzero v /\ below v bound) -> r = JS.Num fallback).

(** [v] is a string, and one of [l]. *)
Definition listed (l : list string) (v : JS.Value) : Prop :=
  exists e, v = JS.Str e /\ e ∈ l.

(** The rule of [parseOptions] for a field chosen from a list: the requested
    value when it is listed, the fallback otherwise. *)
Definition listed_rule (l : list string) (v : JS.Value) (fallback : string) (r : JS.Value) : Prop :=
  (listed l v -> r = v) /\ (~ listed l v -> r = JS.Str fallback).

(** A resolved record handed back as a query. *)
Definition as_query (o : JS.Object) : gmap string JS.Value := list_to_map o.

(** [dir] passes [validateWritableDir]: it exists, is a directory and is
    writable. *)
Definition writable_dir (fs : Disk) (dir : string) : Prop :=
  exists n, fs !! dir = Some n /\ is_directory n = true /\ is_writable n = true.

(** The request leads to a write of the cache file: the cache file cannot be
    sent, the source exists and the codec succeeds. *)
Definition fills_cache (this : ImgServer) (w : World) (req : Request) : Prop :=
  sendable (disk w) (cache_file this req) = false
  /\ archiveExists (disk w) (source_file this req) = true
  /\ sharp w (source_file this req) (parseOptions this (req_query req)) = true.

(** A request for [path] with [query]. *)
Definition request (path : string) (query : gmap string JS.Value) : Request :=
  {| req_path := path; req_query := query |}.

End Vocabulary.

(** Membership in a list that is written out. *)
Ltac in_list :=
  solve [repeat first [apply list_elem_of_here | apply list_elem_of_further]].

(** * Theorems *)

Section ResolverFacts.

Context `{Platform}.

Lemma ToBoolean_Num n :
  JS.ToBoolean (JS.Num n) = true <-> usable n.
Proof.
  unfold usable; simpl.
  destruct (PrimFloat.is_zero n), (PrimFloat.is_nan n); simpl; intuition congruence.
Qed.

Lemma ToBoolean_present v :
  JS.ToBoolean v && JS.ToBoolean (JS.Num (Number v)) = true
  <-> present v /\ numeric v /\ nonzero v.
Proof.
  unfold present, numeric, nonzero.
  rewrite andb_true_iff, ToBoolean_Num. unfold usable.
  destruct v as [|n|s]; simpl.
  - intuition congruence.
  - destruct (PrimFloat.is_zero n), (PrimFloat.is_nan n); simpl; intuition congruence.
  - destruct (String.eqb_spec s ""); simpl; intuition congruence.
Qed.

Lemma numeric_below_spec v bound :
  numeric_below v bound = true
  <-> present v /\ numeric v /\ nonzero v /\ below v bound.
Proof.
  unfold numeric_below. rewrite andb_true_iff, ToBoolean_present.
  unfold below. tauto.
Qed.

(** The resolver returns the five fields in the order of the literal it
    copies, whatever the query. *)
Lemma parseOptions_fields this query :
  parseOptions this query =
    [("width", resolved this query "width");
     ("height", resolved this query "height");
     ("quality", resolved this query "quality");
     ("ext", resolved this query "ext");
     ("resizeMode", resolved this query "resizeMode")].
Proof. reflexivity. Qed.

Lemma resolved_bounded this query k bound fallback :
  (k, bound, fallback) ∈
    [("width", maxWidth _defaultConfig, maxWidth _defaultConfig);
     ("height", maxHeight _defaultConfig, maxHeight _defaultConfig);
     ("quality", 100%float, quality _defaultConfig)] ->
  resolved this query k =
    if numeric_below (requested query k) bound
    then JS.Num (Number (requested query k)) else JS.Num fallback.
Proof.
  intros Hk. repeat (apply elem_of_cons in Hk as [Hk|Hk]; [injection Hk as -> -> ->; reflexivity|]).
  by apply elem_of_nil in Hk.
Qed.

End ResolverFacts.

(** ** The example platform is ECMAScript where it claims to be *)

Lemma example_converts_decimal : @converts_decimal Example.platform.
Proof.
  intros s f Hs. simpl. unfold Example.to_number.
  destruct s as [|c s]; [discriminate Hs|]. by rewrite Hs.
Qed.

Lemma example_prints_integers : @prints_integers Example.platform.
Proof.
  intros n z Hz. simpl. unfold Example.number_text. by rewrite Hz.
Qed.

Lemma Num_neq_by (f : float -> bool) (a b : float) :
  f a <> f b -> JS.Num a <> JS.Num b.
Proof.
  intros Hf E. apply Hf.
  exact (f_equal (fun v => match v with JS.Num n => f n | _ => false end) E).
Qed.

(** ** The option resolver *)

Section ResolverTheorems.

Context `{Platform}.

(** C1, as amended. With the built-in bounds 1920 and 1080 kept by the
    configuration, the resolved width is the requested one when that is
    present, numeric, not zero and strictly below maxWidth, and maxWidth
    otherwise; the same for the height against maxHeight; and [width=5000]
    resolves to 1920. *)
Theorem parseOptions_width_height this query :
  maxWidth (config this) = 1920%float ->
  maxHeight (config this) = 1080%float ->
  bounded_rule (requested query "width") (maxWidth (config this))
    (resolved this query "width")
  /\ bounded_rule (requested query "height") (maxHeight (config this))
       (resolved this query "height")
  /\ (converts_decimal -> query !! "width" = Some (JS.Str "5000") ->
      resolved this query "width" = JS.Num 1920).
Proof.
  intros -> ->. split; [|split].
  - rewrite (resolved_bounded this query "width" 1920 1920) by in_list.
    unfold bounded_rule. rewrite <- numeric_below_spec.
    destruct (numeric_below _ _); split; congruence.
  - rewrite (resolved_bounded this query "height" 1080 1080) by in_list.
    unfold bounded_rule. rewrite <- numeric_below_spec.
    destruct (numeric_below _ _); split; congruence.
  - intros Hdec Hq.
    rewrite (resolved_bounded this query "width" 1920 1920) by in_list.
    unfold requested, numeric_below. rewrite Hq. simpl.
    rewrite (Hdec "5000" 5000%float) by reflexivity.
    reflexivity.
Qed.

Lemma includes_strings l v :
  JS.includes (strings l) v = true -> exists e, v = JS.Str e /\ e ∈ l.
Proof.
  induction l as [|a l IH]; simpl; [discriminate|].
  rewrite orb_true_iff. intros [Ha|Hl].
  - destruct v as [|n|e]; try discriminate.
    apply String.eqb_eq in Ha as ->. exists e. split; [done|apply list_elem_of_here].
  - destruct (IH Hl) as (e & -> & He). exists e. split; [done|by apply list_elem_of_further].
Qed.

Lemma resolved_number this query k bound fallback :
  (k, bound, fallback) ∈
    [("width", maxWidth _defaultConfig, maxWidth _defaultConfig);
     ("height", maxHeight _defaultConfig, maxHeight _defaultConfig);
     ("quality", 100%float, quality _defaultConfig)] ->
  exists n, resolved this query k = JS.Num n
    /\ (usable n /\ PrimFloat.ltb n bound = true \/ n = fallback).
Proof.
  intros Hk. rewrite (resolved_bounded _ _ _ _ _ Hk).
  destruct (numeric_below _ _) eqn:E; eexists; split; try reflexivity; [left|by right].
  apply numeric_below_spec in E as (_ & Hnan & Hzero & Hlt).
  by repeat split.
Qed.

Lemma resolved_ext this query :
  exists e, resolved this query "ext" = JS.Str e
    /\ e ∈ allowedExts _defaultConfig.
Proof.
  change (resolved this query "ext") with
    (if JS.ToBoolean (requested query "ext")
        && JS.includes (strings (allowedExts _defaultConfig)) (requested query "ext")
     then requested query "ext" else JS.Str (defaultExt _defaultConfig)).
  destruct (_ && _) eqn:E.
  - apply andb_true_iff in E as [_ E]. by apply includes_strings.
  - exists "webp". split; [done|]. simpl. in_list.
Qed.

Lemma resolved_resizeMode this query :
  exists m, resolved this query "resizeMode" = JS.Str m /\ m ∈ resizeModesArray.
Proof.
  change (resolved this query "resizeMode") with
    (if JS.ToBoolean (requested query "resizeMode")
        && JS.includes (strings resizeModesArray) (requested query "resizeMode")
     then requested query "resizeMode" else JS.Str (resizeMode _defaultConfig)).
  destruct (_ && _) eqn:E.
  - apply andb_true_iff in E as [_ E]. by apply includes_strings.
  - exists "cover". split; [done|]. unfold resizeModesArray. in_list.
Qed.

(** The resolver does not read the server object: any two servers resolve a
    query alike, whatever they were configured with. *)
Lemma parseOptions_ignores_config this1 this2 query :
  parseOptions this1 query = parseOptions this2 query.
Proof. reflexivity. Qed.

(** C3, as amended. With the built-in bounds and formats kept by the
    configuration, the resolved record has its five fields, each populated;
    width, height and quality are numbers that are neither zero nor NaN;
    width is below maxWidth or is maxWidth, height likewise, quality is below
    100; the format is an allowed one and the fit mode is cover, contain or
    fill. Nothing bounds the numbers from below. *)
Theorem parseOptions_invariant this query :
  keeps_built_in_bounds (config this) ->
  resolved_invariant (config this) (parseOptions this query).
Proof.
  intros (Ewidth & Eheight & Eexts). unfold resolved_invariant.
  rewrite Ewidth, Eheight, Eexts, parseOptions_fields.
  destruct (resolved_number this query "width" 1920 1920) as (w & -> & Hw); [in_list|].
  destruct (resolved_number this query "height" 1080 1080) as (h & -> & Hh); [in_list|].
  destruct (resolved_number this query "quality" 100 80) as (q & -> & Hq); [in_list|].
  destruct (resolved_ext this query) as (e & -> & He).
  destruct (resolved_resizeMode this query) as (m & -> & Hm).
  exists w, h, q, e, m. split; [reflexivity|].
  assert (usable 1920 /\ usable 1080 /\ usable 80) as (U1 & U2 & U3) by done.
  repeat split; try assumption.
  - destruct Hw as [[(?&?) _]| ->]; [assumption|apply U1].
  - destruct Hw as [[(?&?) _]| ->]; [assumption|apply U1].
  - destruct Hw as [[_ ?]| ->]; [by left|by right].
  - destruct Hh as [[(?&?) _]| ->]; [assumption|apply U2].
  - destruct Hh as [[(?&?) _]| ->]; [assumption|apply U2].
  - destruct Hh as [[_ ?]| ->]; [by left|by right].
  - destruct Hq as [[(?&?) _]| ->]; [assumption|apply U3].
  - destruct Hq as [[(?&?) _]| ->]; [assumption|apply U3].
  - destruct Hq as [[_ ?]| ->]; [assumption|reflexivity].
Qed.

(** C5. The cache key is a function of the path and of the five resolved
    field values alone: two requests, to any two servers in any state, with
    the same path and the same resolved values get the same key. *)
Theorem loadCacheName_deterministic path1 path2 this1 this2 query1 query2 :
  path1 = path2 ->
  (forall k, k ∈ JS.keys _defaultRequestConfig ->
     resolved this1 query1 k = resolved this2 query2 k) ->
  loadCacheName path1 (parseOptions this1 query1)
  = loadCacheName path2 (parseOptions this2 query2).
Proof.
  intros -> Hfields.
  rewrite (parseOptions_fields this1), (parseOptions_fields this2).
  rewrite !Hfields by (simpl; in_list). reflexivity.
Qed.

(** C4, the failing input: a configuration that allows PNG only. The
    resolver reads the built-in formats, so a request without [ext], and one
    with [ext=webp], resolve to webp, which the configuration does not
    allow. *)
Theorem parseOptions_format_not_configured this :
  allowedExts (config this) = ["png"] ->
  defaultExt (config this) = "png" ->
  resolved this ∅ "ext" = JS.Str "webp"
  /\ resolved this {[ "ext" := JS.Str "webp" ]} "ext" = JS.Str "webp"
  /\ "webp" ∉ allowedExts (config this).
Proof.
  intros -> _. repeat split.
  intros Hin. apply list_elem_of_singleton in Hin. discriminate.
Qed.

End ResolverTheorems.

(** ** The cache key *)

Section StringFacts.

Lemma app_nil_s (b : string) : "" +:+ b = b.
Proof. reflexivity. Qed.

Lemma app_cons_s x (a b : string) : String x a +:+ b = String x (a +:+ b).
Proof. reflexivity. Qed.

Lemma app_assoc_s (a b c : string) : (a +:+ b) +:+ c = a +:+ (b +:+ c).
Proof.
  induction a as [|x a IH]; [reflexivity|].
  by rewrite !app_cons_s, IH.
Qed.

Lemma length_app_s (a b : string) :
  String.length (a +:+ b) = (String.length a + String.length b)%nat.
Proof.
  induction a as [|x a IH]; [reflexivity|].
  rewrite app_cons_s. simpl. by rewrite IH.
Qed.

Lemma contains_app c (a b : string) :
  contains c (a +:+ b) = contains c a || contains c b.
Proof.
  induction a as [|x a IH]; [reflexivity|].
  rewrite app_cons_s. simpl. by rewrite IH, orb_assoc.
Qed.

Lemma chars_of_contains alphabet s c :
  chars_of alphabet s = true -> contains c alphabet = false -> contains c s = false.
Proof.
  intros Hs Hc. induction s as [|a s IH]; simpl in *; [reflexivity|].
  apply andb_true_iff in Hs as [Ha Hs]. rewrite (IH Hs), orb_false_r.
  destruct (Ascii.eqb_spec a c) as [->|]; [congruence|reflexivity].
Qed.

(** Two splits of one string at the same length are the same split. *)
Lemma app_eq_length (a1 a2 t1 t2 : string) :
  String.length a1 = String.length a2 ->
  a1 +:+ t1 = a2 +:+ t2 -> a1 = a2 /\ t1 = t2.
Proof.
  revert a2. induction a1 as [|x a1 IH]; intros [|y a2]; simpl; try discriminate.
  - rewrite !app_nil_s. by intros _ ->.
  - intros Hlen E. injection Hlen as Hlen. rewrite !app_cons_s in E.
    injection E as -> E. destruct (IH _ Hlen E) as [-> ->]. done.
Qed.

Lemma first_index_app c (x t : string) :
  contains c x = false -> first_index c (x +:+ String c t) = String.length x.
Proof.
  induction x as [|a x IH]; [rewrite app_nil_s|rewrite app_cons_s]; simpl.
  - by rewrite Ascii.eqb_refl.
  - intros Hx. apply orb_false_iff in Hx as [-> Hx]. by rewrite IH.
Qed.

(** A string is split in one way only at the first [c]. *)
Lemma split_at_first c (x1 x2 t1 t2 : string) :
  contains c x1 = false -> contains c x2 = false ->
  x1 +:+ String c t1 = x2 +:+ String c t2 -> x1 = x2 /\ t1 = t2.
Proof.
  intros H1 H2 E.
  assert (String.length x1 = String.length x2) as Hlen.
  { rewrite <- (first_index_app c x1 t1 H1), <- (first_index_app c x2 t2 H2).
    by rewrite E. }
  destruct (app_eq_length _ _ _ _ Hlen E) as [-> E']. by injection E' as ->.
Qed.

(** A field value followed by a separator [pre ++ c ++ post], where [c]
    occurs neither in the value nor in [pre], ends where the separator
    starts. *)
Lemma split_field c (pre post x1 x2 t1 t2 : string) :
  contains c pre = false -> contains c x1 = false -> contains c x2 = false ->
  x1 +:+ (pre +:+ String c post) +:+ t1 = x2 +:+ (pre +:+ String c post) +:+ t2 ->
  x1 = x2 /\ t1 = t2.
Proof.
  intros Hpre H1 H2 E.
  rewrite !(app_assoc_s pre), !app_cons_s, <- !(app_assoc_s _ pre) in E.
  apply split_at_first in E as [E Et]; try (rewrite contains_app, Hpre; by rewrite ?H1, ?H2).
  apply (inj (String.append post)) in Et.
  apply app_eq_length in E as [-> _]; [done|].
  apply (f_equal String.length) in E. rewrite !length_app_s in E. lia.
Qed.

(** A string is split in one way only at the last [c]. *)
Lemma split_at_last c (s1 s2 e1 e2 : string) :
  contains c e1 = false -> contains c e2 = false ->
  s1 +:+ String c e1 = s2 +:+ String c e2 -> s1 = s2 /\ e1 = e2.
Proof.
  intros H1 H2. revert s2.
  induction s1 as [|a s1 IH]; intros [|b s2];
    rewrite ?app_nil_s, ?app_cons_s; intros E.
  - by injection E as ->.
  - injection E as <- E. rewrite E, contains_app in H1. simpl in H1.
    rewrite Ascii.eqb_refl, orb_true_r in H1. discriminate.
  - injection E as -> E. rewrite <- E, contains_app in H2. simpl in H2.
    rewrite Ascii.eqb_refl, orb_true_r in H2. discriminate.
  - injection E as -> E. destruct (IH _ E) as [-> ->]. done.
Qed.

Lemma lastIndexOf_from_absent s c i found :
  contains c s = false -> JS.lastIndexOf_from s c i found = found.
Proof.
  revert i found. induction s as [|a s IH]; simpl; intros i found Hs; [reflexivity|].
  apply orb_false_iff in Hs as [-> Hs]. by apply IH.
Qed.

Lemma substring_to_minus_one s : JS.substring s 0 (-1) = "".
Proof.
  unfold JS.substring, JS.clamp.
  replace (Z.max 0 (Z.min 0 (Z.of_nat (String.length s)))) with 0%Z by lia.
  replace (Z.max 0 (Z.min (-1) (Z.of_nat (String.length s)))) with 0%Z by lia.
  simpl. by destruct s.
Qed.

End StringFacts.

Section CacheKeyTheorems.

Context `{Platform}.

(** C10. A request path with no dot loses everything when its extension is
    stripped: [lastIndexOf] is [-1] and the substring up to it is empty; so
    two such paths with the same options get the same key. *)
Theorem loadCacheName_without_extension path1 path2 options :
  contains "." path1 = false ->
  contains "." path2 = false ->
  JS.lastIndexOf path1 "." = (-1)%Z
  /\ JS.substring path1 0 (JS.lastIndexOf path1 ".") = ""
  /\ loadCacheName path1 options = loadCacheName path2 options.
Proof.
  intros H1 H2. unfold loadCacheName, cacheName_raw, JS.lastIndexOf.
  rewrite !lastIndexOf_from_absent by assumption.
  by rewrite !substring_to_minus_one.
Qed.

(** The string handed to [slug], for a record of the five fields. *)
Lemma cacheName_raw_fields path w h q e m :
  cacheName_raw path
    [("width", JS.Num w); ("height", JS.Num h); ("quality", JS.Num q);
     ("ext", JS.Str e); ("resizeMode", JS.Str m)]
  = "-width-" +:+ NumberToString w +:+ "-height-" +:+ NumberToString h
    +:+ "-quality-" +:+ NumberToString q +:+ "-ext-" +:+ e
    +:+ "-resizeMode-" +:+ m +:+ "-"
    +:+ JS.substring path 0 (JS.lastIndexOf path ".").
Proof.
  unfold cacheName_raw. simpl. by rewrite !app_assoc_s.
Qed.

Lemma built_in_ext_plain e :
  e ∈ allowedExts _defaultConfig ->
  contains "-" e = false /\ contains "." e = false.
Proof.
  simpl. intros He.
  repeat (apply elem_of_cons in He as [->|He]; [by split|]).
  by apply elem_of_nil in He.
Qed.

Lemma resizeMode_plain m :
  m ∈ resizeModesArray -> contains "-" m = false.
Proof.
  unfold resizeModesArray. intros Hm.
  repeat (apply elem_of_cons in Hm as [->|Hm]; [done|]).
  by apply elem_of_nil in Hm.
Qed.

Lemma printed_apart_Num c x y :
  contains c number_alphabet = false ->
  printed_apart (JS.Num x) (JS.Num y) ->
  contains c (NumberToString x) = false
  /\ contains c (NumberToString y) = false
  /\ (NumberToString x = NumberToString y -> x = y).
Proof.
  intros Hc (Hx & Hy & Hxy).
  repeat split; [by eapply chars_of_contains..|exact Hxy].
Qed.

(** C6. For a fixed path, two resolved records that differ get different
    keys, barring a collision in [slug]; the three numbers are assumed to be
    printed as numbers are (in the alphabet of numbers, different numbers
    with different texts). *)
Theorem loadCacheName_injective path this1 this2 query1 query2 :
  (forall k, k ∈ ["width"; "height"; "quality"] ->
     printed_apart (resolved this1 query1 k) (resolved this2 query2 k)) ->
  slug_apart (cacheName_raw path (parseOptions this1 query1))
             (cacheName_raw path (parseOptions this2 query2)) ->
  parseOptions this1 query1 <> parseOptions this2 query2 ->
  loadCacheName path (parseOptions this1 query1)
  <> loadCacheName path (parseOptions this2 query2).
Proof.
  intros Hprint Hslug Hdiff Hkey. apply Hdiff. clear Hdiff.
  pose proof (Hprint "width" ltac:(in_list)) as Pw.
  pose proof (Hprint "height" ltac:(in_list)) as Ph.
  pose proof (Hprint "quality" ltac:(in_list)) as Pq.
  clear Hprint. revert Hslug Hkey Pw Ph Pq.
  rewrite (parseOptions_fields this1), (parseOptions_fields this2).
  destruct (resolved_number this1 query1 "width" 1920 1920) as (w1 & -> & _); [in_list|].
  destruct (resolved_number this2 query2 "width" 1920 1920) as (w2 & -> & _); [in_list|].
  destruct (resolved_number this1 query1 "height" 1080 1080) as (h1 & -> & _); [in_list|].
  destruct (resolved_number this2 query2 "height" 1080 1080) as (h2 & -> & _); [in_list|].
  destruct (resolved_number this1 query1 "quality" 100 80) as (q1 & -> & _); [in_list|].
  destruct (resolved_number this2 query2 "quality" 100 80) as (q2 & -> & _); [in_list|].
  destruct (resolved_ext this1 query1) as (e1 & -> & He1).
  destruct (resolved_ext this2 query2) as (e2 & -> & He2).
  destruct (resolved_resizeMode this1 query1) as (m1 & -> & Hm1).
  destruct (resolved_resizeMode this2 query2) as (m2 & -> & Hm2).
  intros Hslug Hkey Pw Ph Pq.
  apply (printed_apart_Num "h") in Pw as (Hw1 & Hw2 & Ew); [|reflexivity].
  apply (printed_apart_Num "q") in Ph as (Hh1 & Hh2 & Eh); [|reflexivity].
  apply (printed_apart_Num "x") in Pq as (Hq1 & Hq2 & Eq); [|reflexivity].
  destruct (built_in_ext_plain e1 He1) as [Hdash1 Hdot1].
  destruct (built_in_ext_plain e2 He2) as [Hdash2 Hdot2].
  pose proof (resizeMode_plain m1 Hm1) as Hmode1.
  pose proof (resizeMode_plain m2 Hm2) as Hmode2.
  unfold loadCacheName in Hkey. simpl in Hkey.
  apply (split_at_last "." _ _ e1 e2 Hdot1 Hdot2) in Hkey as [Hkey _].
  apply Hslug in Hkey. rewrite !cacheName_raw_fields in Hkey.
  apply (inj (String.append "-width-")) in Hkey.
  apply (split_field "h" "-" "eight-" _ _ _ _ eq_refl Hw1 Hw2) in Hkey as [Ewidth Hkey].
  apply (split_field "q" "-" "uality-" _ _ _ _ eq_refl Hh1 Hh2) in Hkey as [Eheight Hkey].
  apply (split_field "x" "-e" "t-" _ _ _ _ eq_refl Hq1 Hq2) in Hkey as [Equality Hkey].
  apply (split_field "-" "" "resizeMode-" _ _ _ _ eq_refl Hdash1 Hdash2) in Hkey as [-> Hkey].
  apply (split_field "-" "" "" _ _ _ _ eq_refl Hmode1 Hmode2) in Hkey as [-> _].
  by rewrite (Ew Ewidth), (Eh Eheight), (Eq Equality).
Qed.

End CacheKeyTheorems.

(** ** The server *)

Section ServerTheorems.

Context `{Platform}.

Lemma sendFile_finished fs path options callback res :
  finished res = true -> sendFile fs path options callback res = (res, true).
Proof. intros Hres. unfold sendFile. by rewrite Hres. Qed.

Lemma sendFile_miss fs path options res :
  sendable fs path = false -> sendFile fs path options true res = (res, true).
Proof.
  unfold sendable, sendFile. intros ->. by destruct (finished res).
Qed.

(** [Cache-Control] after [send] has completed the headers. *)
Lemma send_Cache_Control_lookup hs :
  send_Cache_Control hs !! "Cache-Control"
  = Some (match hs !! "Cache-Control" with
          | Some v => served_Cache_Control v
          | None => default_Cache_Control
          end).
Proof.
  unfold send_Cache_Control, served_Cache_Control.
  destruct (hs !! "Cache-Control") as [v|] eqn:E.
  - destruct (String.eqb v ""); [apply lookup_insert_eq|exact E].
  - apply lookup_insert_eq.
Qed.

(** [send] completes [Cache-Control] and no other header. *)
Lemma send_Cache_Control_other hs name :
  name <> "Cache-Control" -> send_Cache_Control hs !! name = hs !! name.
Proof.
  intros Hname. unfold send_Cache_Control.
  destruct (hs !! "Cache-Control") as [v|]; [destruct (String.eqb v "")|];
    try reflexivity; by rewrite lookup_insert_ne.
Qed.

Lemma send_Cache_Control_absent hs :
  hs !! "Cache-Control" = None ->
  send_Cache_Control hs = <["Cache-Control" := default_Cache_Control]> hs.
Proof. intros E. unfold send_Cache_Control. by rewrite E. Qed.

Lemma removeHeader_finished name res :
  finished res = true -> removeHeader name res = res.
Proof. intros Hres. unfold removeHeader. by rewrite Hres. Qed.

Lemma respondWith404_finished this fs res :
  finished res = true -> respondWith404 this fs res = res.
Proof.
  intros Hres. unfold respondWith404.
  rewrite (removeHeader_finished "Cache-Control" res) by assumption.
  rewrite (removeHeader_finished "Expires" res) by assumption.
  destruct (returns404 (config this)).
  - unfold send, status. by rewrite Hres, Hres.
  - by rewrite sendFile_finished.
Qed.

(** What [respondWith404] answers on a response not sent yet. *)
Lemma respondWith404_response this fs res :
  finished res = false ->
  respondWith404 this fs res = failure_response this fs res.
Proof.
  intros Hres. destruct res as [hs code [b|]]; [discriminate|].
  unfold respondWith404, failure_response, fallback_file, sendable.
  simpl. destruct (returns404 (config this)); [reflexivity|].
  unfold sendFile. simpl.
  destruct (existsSync fs _ && negb (isDirectory fs _)); [|reflexivity].
  simpl. rewrite send_Cache_Control_absent; [reflexivity|].
  rewrite lookup_delete_ne by done. apply lookup_delete_eq.
Qed.

Lemma failure_response_finished this fs res :
  finished (failure_response this fs res) = true.
Proof.
  unfold failure_response.
  destruct (returns404 (config this)); [reflexivity|].
  by destruct (sendable fs (fallback_file this)).
Qed.

(** The failure response carries no [Expires]. *)
Lemma failure_response_Expires this fs res :
  headers (failure_response this fs res) !! "Expires" = None.
Proof.
  unfold failure_response.
  destruct (returns404 (config this)); [apply lookup_delete_eq|].
  destruct (sendable fs (fallback_file this)); simpl.
  - rewrite lookup_insert_ne by done. apply lookup_delete_eq.
  - apply lookup_delete_eq.
Qed.

(** [respondWith404] reads the configuration only. *)
Lemma respondWith404_config this1 this2 fs res :
  config this1 = config this2 ->
  respondWith404 this1 fs res = respondWith404 this2 fs res.
Proof. intros E. unfold respondWith404. by rewrite E. Qed.

(** The response of a failure path is the one [respondWith404] gives. *)
Lemma middleware_fails this w req res :
  finished res = false ->
  fails this w req ->
  (middleware this w req res).2 = failure_response this (disk w) res.
Proof.
  intros Hres (Hmiss & Hwhy).
  unfold middleware. simpl.
  change (path_join (imgPath (config this)) (req_path req))
    with (source_file this req).
  rewrite (sendFile_miss _ _ _ _ Hmiss). simpl.
  set (this' := set_timeoutFunction _ _).
  assert (forall r, finished r = false ->
            respondWith404 this' (disk w) r = failure_response this (disk w) r)
    as Hanswer.
  { intros r Hr. rewrite (respondWith404_config this' this) by reflexivity.
    by apply respondWith404_response. }
  destruct (archiveExists (disk w) (source_file this req)) eqn:Hsource; simpl.
  - unfold getImg. simpl.
    destruct (sharp w (source_file this req) _) eqn:Hsharp; simpl.
    + destruct Hwhy as [?|[?|Hfires]]; try discriminate.
      destruct (fires w); [done| |];
        rewrite Hanswer by assumption;
        by rewrite sendFile_finished by apply failure_response_finished.
    + destruct (fires w); [by apply Hanswer| |];
        rewrite (Hanswer res) by assumption;
        by rewrite respondWith404_finished by apply failure_response_finished.
  - destruct (fires w); [by apply Hanswer| |by apply Hanswer].
    rewrite (Hanswer res) by assumption.
    by rewrite respondWith404_finished by apply failure_response_finished.
Qed.


(** Scenario E of section 8. When the timer runs out during a transform that
    succeeds in the end, the response is the failure response (the 404, or
    the fallback image with the [Cache-Control: public, max-age=0] of
    Express, or Express's own answer), not the image that was asked for, and
    the cache file is written all the same. *)
Theorem middleware_timeout this w req res :
  finished res = false ->
  sendable (disk w) (cache_file this req) = false ->
  archiveExists (disk w) (source_file this req) = true ->
  sharp w (source_file this req) (parseOptions this (req_query req)) = true ->
  fires w = DuringTransform ->
  (middleware this w req res).2 = respondWith404 this (disk w) res
  /\ (middleware this w req res).2 = failure_response this (disk w) res
  /\ (returns404 (config this) = false ->
      sendable (disk w) (fallback_file this) = true ->
      body (middleware this w req res).2 = Some (File (fallback_file this))
      /\ headers (middleware this w req res).2 !! "Cache-Control"
         = Some "public, max-age=0"
      /\ headers (middleware this w req res).2 !! "Expires" = None)
  /\ (middleware this w req res).1.2
     = <[cache_file this req := regular_file]> (disk w).
Proof.
  intros Hres Hmiss Hsource Hsharp Hfires.
  assert ((middleware this w req res).2 = failure_response this (disk w) res)
    as Hanswer.
  { apply middleware_fails; [assumption|].
    split; [assumption|]. right. right. by rewrite Hfires. }
  rewrite Hanswer. split; [by rewrite respondWith404_response|].
  split; [reflexivity|]. split.
  - intros Hflag Hfallback. split; [|split].
    + unfold failure_response. by rewrite Hflag, Hfallback.
    + unfold failure_response. rewrite Hflag, Hfallback. apply lookup_insert_eq.
    + apply failure_response_Expires.
  - unfold middleware. simpl.
    change (path_join (imgPath (config this)) (req_path req))
      with (source_file this req).
    rewrite (sendFile_miss _ _ _ _ Hmiss). simpl.
    rewrite Hsource. unfold getImg. simpl. by rewrite Hsharp.
Qed.

(** On a success path the response is the cache file with the two headers
    the server object holds. *)
Lemma middleware_success this w req res :
  finished res = false ->
  succeeds this w req ->
  (middleware this w req res).2 = success_response this req res.
Proof.
  intros Hres Hwhy. destruct res as [hs code [b|]]; [discriminate|].
  unfold succeeds, sendable, cache_file, source_file, success_response in *.
  unfold middleware, sendFile at 1. simpl.
  destruct (existsSync _ _ && negb _) eqn:Hhit; [reflexivity|].
  destruct Hwhy as [?|(Hsource & Hsharp & Hfires)]; [discriminate|]. simpl.
  rewrite Hfires, Hsource. unfold getImg. simpl. rewrite Hsharp. simpl.
  unfold sendFile, existsSync, isDirectory. simpl. by rewrite lookup_insert_eq.
Qed.

(** The two caching headers of the success response. *)
Lemma success_response_headers this req res :
  headers (success_response this req res) !! "Cache-Control"
  = Some (served_Cache_Control (Cache_Control (_fileHeaders this)))
  /\ headers (success_response this req res) !! "Expires"
     = Some (Expires (_fileHeaders this)).
Proof.
  unfold success_response. simpl. split.
  - rewrite send_Cache_Control_lookup.
    rewrite lookup_insert_ne by done. by rewrite lookup_insert_eq.
  - rewrite send_Cache_Control_other by done. apply lookup_insert_eq.
Qed.

(** Scenarios A and B of section 8. On a success path (a cache hit, or a miss
    that is transformed in time) the response is the cache file, with the
    Expires value the server object holds and with its Cache-Control value;
    only when that value is the empty string does [send] put its default
    [public, max-age=0] in its place. *)
Theorem middleware_success_headers this w req res :
  finished res = false ->
  succeeds this w req ->
  body (middleware this w req res).2 = Some (File (cache_file this req))
  /\ headers (middleware this w req res).2 !! "Cache-Control"
     = Some (if String.eqb (Cache_Control (_fileHeaders this)) ""
             then "public, max-age=0"
             else Cache_Control (_fileHeaders this))
  /\ headers (middleware this w req res).2 !! "Expires"
     = Some (Expires (_fileHeaders this)).
Proof.
  intros Hres Hwhy. rewrite middleware_success by assumption.
  split; [reflexivity|]. apply success_response_headers.
Qed.


(** The constructor completes normally on every disk, and what [init] threw
    is in the promise it dropped. *)
Lemma new_ImgServer_returns fs now config :
  exists this, (new_ImgServer fs now config).1 = Normal this.
Proof.
  unfold new_ImgServer. destruct (init _ _ _ _) as [this c]. by exists this.
Qed.

(** C8, the failing input: no cache directory on disk. The constructor
    returns the object; the descriptive error rejects the promise of [init],
    which the constructor never hands to its caller. *)
Theorem new_ImgServer_missing_cacheDir fs now config :
  existsSync fs (cacheDir config) = false ->
  new_ImgServer fs now config
  = (Normal (set_config (spread_config _defaultConfig config) allocated),
     Rejected (cacheDir config +:+ " does not exist")).
Proof.
  intros Hmissing. unfold new_ImgServer, init, bind, assign, validateWritableDir.
  simpl. by rewrite Hmissing.
Qed.

(** When both directories pass, [init] has set the two headers from the
    configuration: Cache-Control carries [cacheTime] as it is written. *)
Lemma init_fileHeaders fs now config :
  validateWritableDir fs (cacheDir config) allocated = (allocated, Normal tt) ->
  validateWritableDir fs (imgPath config) allocated = (allocated, Normal tt) ->
  _fileHeaders (init fs now config allocated).1
  = {| Cache_Control := "public, max-age=" +:+ NumberToString (cacheTime config);
       Expires := toUTCString (now + cacheTime config)%float |}.
Proof.
  unfold validateWritableDir. intros Hcache Himg.
  unfold init, bind, assign, validateWritableDir. simpl.
  destruct (negb (existsSync fs (cacheDir config))); [discriminate|].
  destruct (negb (isDirectory fs (cacheDir config))); [discriminate|].
  destruct (accessSync_W_OK fs (cacheDir config)); [|discriminate].
  destruct (negb (existsSync fs (imgPath config))); [discriminate|].
  destruct (negb (isDirectory fs (imgPath config))); [discriminate|].
  destruct (accessSync_W_OK fs (imgPath config)); [|discriminate].
  simpl. unfold validateDefaultImgExists, bind, read. simpl.
  by destruct (_ && _).
Qed.

(** C2, the failing input: the server of [src/app.ts], whose cache lifetime
    is one week. Started on a disk with both directories, it answers every
    success path with [Cache-Control: public, max-age=604800000], the
    lifetime in milliseconds, not with [max-age=604800]. *)
Theorem app_Cache_Control fs now w req res :
  prints_integers ->
  validateWritableDir fs (cacheDir app_config) allocated = (allocated, Normal tt) ->
  validateWritableDir fs (imgPath app_config) allocated = (allocated, Normal tt) ->
  exists this,
    (server fs now).1 = Normal this
    /\ Cache_Control (_fileHeaders this) = "public, max-age=604800000"
    /\ Cache_Control (_fileHeaders this) <> "public, max-age=604800"
    /\ (finished res = false -> succeeds this w req ->
        headers (middleware this w req res).2 !! "Cache-Control"
        = Some "public, max-age=604800000").
Proof.
  intros Hprint Hcache Himg.
  exists (init fs now app_config allocated).1.
  assert (Cache_Control (_fileHeaders (init fs now app_config allocated).1)
          = "public, max-age=604800000") as Hheader.
  { rewrite init_fileHeaders by assumption. simpl.
    by rewrite (Hprint _ 604800000%Z). }
  split; [|split; [exact Hheader|split]].
  - unfold server, new_ImgServer. by destruct (init _ _ _ _).
  - rewrite Hheader. discriminate.
  - intros Hres Hwhy. rewrite middleware_success by assumption.
    rewrite (proj1 (success_response_headers _ _ _)). by rewrite Hheader.
Qed.

End ServerTheorems.

(** ** More on the option resolver *)

Section ResolverRules.

Context `{Platform}.

Lemma includes_strings_elem l e :
  e ∈ l -> JS.includes (strings l) (JS.Str e) = true.
Proof.
  induction l as [|a l IH]; intros He; [by apply elem_of_nil in He|].
  simpl. apply orb_true_iff. apply elem_of_cons in He as [->|He].
  - left. apply String.eqb_refl.
  - right. by apply IH.
Qed.

Lemma includes_listed l v :
  "" ∉ l ->
  JS.ToBoolean v && JS.includes (strings l) v = true <-> listed l v.
Proof.
  intros Hl. rewrite andb_true_iff. split.
  - intros [_ Hin]. by apply includes_strings.
  - intros (e & -> & He). split; [|by apply includes_strings_elem].
    simpl. destruct (String.eqb_spec e "") as [->|]; [done|reflexivity].
Qed.

Lemma built_in_lists_plain :
  ("" ∉ allowedExts _defaultConfig) /\ ("" ∉ resizeModesArray).
Proof.
  split; intros Hin; simpl in Hin;
    repeat (apply elem_of_cons in Hin as [Hin|Hin]; [discriminate|]);
    by apply elem_of_nil in Hin.
Qed.

(** The quality rule. Whatever the configuration, the resolved quality is the
    requested one when that is present, numeric, not zero and strictly below
    100, and the built-in 80 otherwise. *)
Theorem parseOptions_quality this query :
  fallback_rule (requested query "quality") 100 80 (resolved this query "quality").
Proof.
  rewrite (resolved_bounded this query "quality" 100 80) by in_list.
  unfold fallback_rule. rewrite <- numeric_below_spec.
  destruct (numeric_below _ _); split; congruence.
Qed.

Lemma resolved_ext_listed this query :
  listed_rule (allowedExts _defaultConfig) (requested query "ext") "webp"
    (resolved this query "ext").
Proof.
  destruct built_in_lists_plain as [Hexts _].
  change (resolved this query "ext") with
    (if JS.ToBoolean (requested query "ext")
        && JS.includes (strings (allowedExts _defaultConfig)) (requested query "ext")
     then requested query "ext" else JS.Str (defaultExt _defaultConfig)).
  unfold listed_rule. rewrite <- (includes_listed _ _ Hexts).
  destruct (_ && _); split; [done|congruence|done|done].
Qed.

Lemma resolved_resizeMode_listed this query :
  listed_rule resizeModesArray (requested query "resizeMode") "cover"
    (resolved this query "resizeMode").
Proof.
  destruct built_in_lists_plain as [_ Hmodes].
  change (resolved this query "resizeMode") with
    (if JS.ToBoolean (requested query "resizeMode")
        && JS.includes (strings resizeModesArray) (requested query "resizeMode")
     then requested query "resizeMode" else JS.Str (resizeMode _defaultConfig)).
  unfold listed_rule. rewrite <- (includes_listed _ _ Hmodes).
  destruct (_ && _); split; [done|congruence|done|done].
Qed.

(** The rules for the format and the fit mode. Whatever the configuration,
    the resolved format is the requested one when that is a string among
    webp, jpg, jpeg, png and gif, and webp otherwise; the resolved fit mode
    is the requested one when that is a string among cover, contain and fill,
    and cover otherwise. *)
Theorem parseOptions_ext_resizeMode this query :
  listed_rule ["webp"; "jpg"; "jpeg"; "png"; "gif"] (requested query "ext") "webp"
    (resolved this query "ext")
  /\ listed_rule ["cover"; "contain"; "fill"] (requested query "resizeMode") "cover"
       (resolved this query "resizeMode").
Proof.
  split; [apply resolved_ext_listed|apply resolved_resizeMode_listed].
Qed.

(** The resolver is a function of the five requested values. *)
Lemma parseOptions_requested this1 this2 query1 query2 :
  (forall k, k ∈ JS.keys _defaultRequestConfig ->
     requested query1 k = requested query2 k) ->
  parseOptions this1 query1 = parseOptions this2 query2.
Proof.
  intros Hsame.
  pose proof (Hsame "width" ltac:(simpl; in_list)) as Hw.
  pose proof (Hsame "height" ltac:(simpl; in_list)) as Hh.
  pose proof (Hsame "quality" ltac:(simpl; in_list)) as Hq.
  pose proof (Hsame "ext" ltac:(simpl; in_list)) as He.
  pose proof (Hsame "resizeMode" ltac:(simpl; in_list)) as Hm.
  unfold requested in *. unfold parseOptions. cbv zeta beta.
  by rewrite Hw, Hh, Hq, He, Hm.
Qed.

(** The resolver reads the keys width, height, quality, ext and resizeMode
    and no other: two queries that agree on these five resolve alike,
    whatever else they hold. *)
Theorem parseOptions_reads_five_keys this query1 query2 :
  (forall k, k ∈ ["width"; "height"; "quality"; "ext"; "resizeMode"] ->
     query1 !! k = query2 !! k) ->
  parseOptions this query1 = parseOptions this query2.
Proof.
  intros Hsame. apply parseOptions_requested.
  intros k Hk. unfold requested. by rewrite (Hsame k Hk).
Qed.

(** A query in which each of the five keys is missing or empty resolves to
    the built-in defaults: 1920, 1080, 80, webp, cover. *)
Theorem parseOptions_defaults this query :
  (forall k, k ∈ ["width"; "height"; "quality"; "ext"; "resizeMode"] ->
     query !! k = None \/ query !! k = Some (JS.Str "")) ->
  parseOptions this query =
    [("width", JS.Num 1920); ("height", JS.Num 1080); ("quality", JS.Num 80);
     ("ext", JS.Str "webp"); ("resizeMode", JS.Str "cover")].
Proof.
  intros Habsent.
  assert (forall k, k ∈ ["width"; "height"; "quality"; "ext"; "resizeMode"] ->
            JS.ToBoolean (requested query k) = false) as Hfalsy.
  { intros k Hk. unfold requested. by destruct (Habsent k Hk) as [-> | ->]. }
  rewrite parseOptions_fields.
  rewrite (resolved_bounded this query "width" 1920 1920) by in_list.
  rewrite (resolved_bounded this query "height" 1080 1080) by in_list.
  rewrite (resolved_bounded this query "quality" 100 80) by in_list.
  change (resolved this query "ext") with
    (if JS.ToBoolean (requested query "ext")
        && JS.includes (strings (allowedExts _defaultConfig)) (requested query "ext")
     then requested query "ext" else JS.Str "webp").
  change (resolved this query "resizeMode") with
    (if JS.ToBoolean (requested query "resizeMode")
        && JS.includes (strings resizeModesArray) (requested query "resizeMode")
     then requested query "resizeMode" else JS.Str "cover").
  unfold numeric_below. by rewrite !Hfalsy by in_list.
Qed.

Lemma requested_as_query w h q e m :
  let query :=
    as_query [("width", w); ("height", h); ("quality", q);
              ("ext", e); ("resizeMode", m)] in
  requested query "width" = w /\ requested query "height" = h
  /\ requested query "quality" = q /\ requested query "ext" = e
  /\ requested query "resizeMode" = m.
Proof.
  unfold requested, as_query. simpl. repeat split; by simplify_map_eq.
Qed.

Lemma resolved_number_again this query k bound fallback n :
  (k, bound, fallback) ∈
    [("width", maxWidth _defaultConfig, maxWidth _defaultConfig);
     ("height", maxHeight _defaultConfig, maxHeight _defaultConfig);
     ("quality", 100%float, quality _defaultConfig)] ->
  requested query k = JS.Num n ->
  usable n /\ PrimFloat.ltb n bound = true \/ n = fallback ->
  resolved this query k = JS.Num n.
Proof.
  intros Hk Hn Hwhy. rewrite (resolved_bounded _ _ _ _ _ Hk), Hn.
  destruct Hwhy as [[[Hzero Hnan] Hlt]|Hfallback].
  - assert (numeric_below (JS.Num n) bound = true) as ->; [|reflexivity].
    apply numeric_below_spec. by repeat split.
  - subst n.
    repeat (apply elem_of_cons in Hk as [Hk|Hk];
            [injection Hk as -> -> ->; reflexivity|]).
    by apply elem_of_nil in Hk.
Qed.

(** Resolving is idempotent: a resolved record handed back as the query, to
    any server, resolves to itself. *)
Theorem parseOptions_idempotent this this' query :
  parseOptions this' (as_query (parseOptions this query)) = parseOptions this query.
Proof.
  rewrite (parseOptions_fields this query).
  destruct (resolved_number this query "width" 1920 1920) as (w & -> & Hw); [in_list|].
  destruct (resolved_number this query "height" 1080 1080) as (h & -> & Hh); [in_list|].
  destruct (resolved_number this query "quality" 100 80) as (q & -> & Hq); [in_list|].
  destruct (resolved_ext this query) as (e & -> & He).
  destruct (resolved_resizeMode this query) as (m & -> & Hm).
  destruct (requested_as_query (JS.Num w) (JS.Num h) (JS.Num q) (JS.Str e) (JS.Str m))
    as (Rw & Rh & Rq & Re & Rm).
  rewrite parseOptions_fields.
  set (again := as_query _).
  rewrite (resolved_number_again this' again "width" _ _ w ltac:(in_list) Rw Hw).
  rewrite (resolved_number_again this' again "height" _ _ h ltac:(in_list) Rh Hh).
  rewrite (resolved_number_again this' again "quality" _ _ q ltac:(in_list) Rq Hq).
  destruct (resolved_ext_listed this' again) as [-> _];
    [|subst again; rewrite Re; by exists e].
  destruct (resolved_resizeMode_listed this' again) as [-> _];
    [|subst again; rewrite Rm; by exists m].
  subst again. by rewrite Re, Rm.
Qed.

End ResolverRules.

(** ** More on the cache key *)

Section CacheKeyRules.

Context `{Platform}.

Lemma lastIndexOf_from_last s t c i found :
  contains c t = false ->
  JS.lastIndexOf_from (s +:+ String c t) c i found
  = (i + Z.of_nat (String.length s))%Z.
Proof.
  intros Ht. revert i found.
  induction s as [|a s IH]; intros i found.
  - rewrite app_nil_s. simpl. rewrite Ascii.eqb_refl.
    rewrite lastIndexOf_from_absent by assumption. lia.
  - rewrite app_cons_s. simpl. rewrite IH. lia.
Qed.

Lemma substring_stem s r :
  JS.substring (s +:+ r) 0 (Z.of_nat (String.length s)) = s.
Proof.
  unfold JS.substring, JS.clamp. rewrite length_app_s.
  replace (Z.max 0 (Z.min 0 _)) with 0%Z by lia.
  replace (Z.max 0 (Z.min (Z.of_nat (String.length s)) _))
    with (Z.of_nat (String.length s)) by lia.
  replace (Z.min 0 (Z.of_nat (String.length s))) with 0%Z by lia.
  replace (Z.max 0 (Z.of_nat (String.length s))) with (Z.of_nat (String.length s)) by lia.
  rewrite Z.sub_0_r, Nat2Z.id. change (Z.to_nat 0) with 0%nat.
  induction s as [|a s IH]; [rewrite app_nil_s; by destruct r|].
  rewrite app_cons_s. simpl. by rewrite IH.
Qed.

(** The file name [loadCacheName] keeps of a path: what stands before the
    last dot. *)
Lemma fileName_stem stem ext :
  contains "." ext = false ->
  JS.substring (stem +:+ String "." ext) 0
    (JS.lastIndexOf (stem +:+ String "." ext) ".") = stem.
Proof.
  intros Hext. unfold JS.lastIndexOf.
  rewrite lastIndexOf_from_last by assumption. apply substring_stem.
Qed.

Lemma loadCacheName_stem stem ext1 ext2 options :
  contains "." ext1 = false ->
  contains "." ext2 = false ->
  loadCacheName (stem +:+ String "." ext1) options
  = loadCacheName (stem +:+ String "." ext2) options.
Proof.
  intros H1 H2. unfold loadCacheName, cacheName_raw.
  by rewrite !fileName_stem by assumption.
Qed.

(** The cache key does not see what follows the last dot of the path: the
    file name kept of [stem.ext] is [stem], so [photo.jpg] and [photo.png]
    get one key under the same options. *)
Theorem loadCacheName_ignores_extension stem ext1 ext2 options :
  contains "." ext1 = false ->
  contains "." ext2 = false ->
  JS.substring (stem +:+ String "." ext1) 0
    (JS.lastIndexOf (stem +:+ String "." ext1) ".") = stem
  /\ loadCacheName (stem +:+ String "." ext1) options
     = loadCacheName (stem +:+ String "." ext2) options.
Proof.
  intros H1 H2. split; [by apply fileName_stem|by apply loadCacheName_stem].
Qed.

(** The extension of the cache key is the resolved format, hence one of
    webp, jpg, jpeg, png and gif whatever the source's extension and
    whatever the configuration allows. *)
Theorem loadCacheName_extension path this query :
  exists e,
    e ∈ ["webp"; "jpg"; "jpeg"; "png"; "gif"]
    /\ resolved this query "ext" = JS.Str e
    /\ loadCacheName path (parseOptions this query)
       = slug (cacheName_raw path (parseOptions this query)) +:+ "." +:+ e.
Proof.
  destruct (resolved_ext this query) as (e & He & Hin).
  exists e. split; [exact Hin|]. split; [exact He|].
  unfold loadCacheName. fold (resolved this query "ext"). by rewrite He.
Qed.

End CacheKeyRules.

(** ** More on the server *)

Section ServerRules.

Context `{Platform}.

Lemma middleware_hit this w req res :
  finished res = false ->
  sendable (disk w) (cache_file this req) = true ->
  middleware this w req res
  = (set_cachePath (cache_file this req)
       (set_cacheName
          (loadCacheName (req_path req) (parseOptions this (req_query req))) this),
     disk w, success_response this req res).
Proof.
  intros Hres Hhit. destruct res as [hs code [b|]]; [discriminate|].
  unfold sendable, cache_file, success_response in *.
  unfold middleware, sendFile at 1. simpl. by rewrite Hhit.
Qed.

Lemma middleware_miss_disk this w req res :
  sendable (disk w) (cache_file this req) = false ->
  (middleware this w req res).1.2
  = if archiveExists (disk w) (source_file this req)
       && sharp w (source_file this req) (parseOptions this (req_query req))
    then <[cache_file this req := regular_file]> (disk w) else disk w.
Proof.
  intros Hmiss. unfold middleware. simpl.
  change (path_join (imgPath (config this)) (req_path req))
    with (source_file this req).
  rewrite (sendFile_miss _ _ _ _ Hmiss). simpl.
  destruct (archiveExists _ _); simpl; [|reflexivity].
  unfold getImg. simpl. by destruct (sharp w _ _).
Qed.

(** Write-through, exactly: on a response not sent yet, the request writes
    the cache file when the cache file cannot be sent, the source exists and
    the codec succeeds, also when the timer has run out meanwhile; in every
    other case the disk is as it was. Nothing is ever removed. *)
Theorem middleware_disk this w req res :
  finished res = false ->
  (fills_cache this w req ->
   (middleware this w req res).1.2
   = <[cache_file this req := regular_file]> (disk w))
  /\ (~ fills_cache this w req -> (middleware this w req res).1.2 = disk w).
Proof.
  intros Hres. unfold fills_cache.
  destruct (sendable (disk w) (cache_file this req)) eqn:Hhit.
  - rewrite middleware_hit by assumption. simpl.
    split; [intros (? & _); discriminate|reflexivity].
  - rewrite middleware_miss_disk by assumption.
    destruct (archiveExists _ _), (sharp w _ _); simpl;
      split; try reflexivity; intros Hwhy;
      try (destruct Hwhy as (_ & ? & ?); discriminate);
      destruct Hwhy; done.
Qed.

(** Cache fill, then hit. After a request that was transformed, the same
    request on the disk it left is answered with the cache file and the two
    headers, whatever the codec and the timer would do: the disk stays as it
    is and no timer is set. *)
Theorem middleware_fill_then_hit this w req res w' res' :
  finished res = false ->
  finished res' = false ->
  fills_cache this w req ->
  disk w' = (middleware this w req res).1.2 ->
  (middleware (middleware this w req res).1.1 w' req res').2
  = success_response this req res'
  /\ (middleware (middleware this w req res).1.1 w' req res').1.2 = disk w'
  /\ timeoutFunction (middleware (middleware this w req res).1.1 w' req res').1.1
     = timeoutFunction (middleware this w req res).1.1.
Proof.
  intros Hres Hres' (Hmiss & Hsource & Hsharp) Hdisk.
  set (this1 := (middleware this w req res).1.1).
  assert (config this1 = config this /\ _fileHeaders this1 = _fileHeaders this)
    as [Hconfig Hheaders].
  { subst this1. unfold middleware. simpl.
    destruct (sendFile _ _ _ _) as [r []]; simpl; [|done].
    destruct (archiveExists _ _); simpl; [|done].
    unfold getImg. simpl. by destruct (sharp w _ _). }
  assert (cache_file this1 req = cache_file this req) as Hfile.
  { unfold cache_file. by rewrite Hconfig. }
  assert (sendable (disk w') (cache_file this1 req) = true) as Hhit.
  { rewrite Hdisk, Hfile, middleware_miss_disk by assumption.
    rewrite Hsource, Hsharp. simpl.
    unfold sendable, existsSync, isDirectory. by rewrite lookup_insert_eq. }
  rewrite (middleware_hit this1 w' req res' Hres' Hhit). simpl.
  repeat split. unfold success_response. by rewrite Hheaders, Hfile.
Qed.

(** One cache entry for all extensions. Once the cache file of [stem.ext1]
    is on disk, a request for [stem.ext2] with the same query is answered
    with that file, whether or not [stem.ext2] exists as a source. *)
Theorem middleware_other_extension this w stem ext1 ext2 query res :
  contains "." ext1 = false ->
  contains "." ext2 = false ->
  finished res = false ->
  sendable (disk w) (cache_file this (request (stem +:+ String "." ext1) query)) = true ->
  (middleware this w (request (stem +:+ String "." ext2) query) res).2
  = success_response this (request (stem +:+ String "." ext1) query) res.
Proof.
  intros H1 H2 Hres Hhit.
  assert (cache_file this (request (stem +:+ String "." ext2) query)
          = cache_file this (request (stem +:+ String "." ext1) query)) as Hfile.
  { unfold cache_file, request. simpl. by rewrite (loadCacheName_stem stem ext2 ext1). }
  rewrite middleware_hit by (assumption || by rewrite Hfile).
  simpl. unfold success_response. by rewrite Hfile.
Qed.

(** Requests handled one after another do not disturb each other through the
    fields the middleware assigns: the response and the disk of a request
    depend on the configuration and the two headers of the server object,
    not on the [cacheName], [cachePath] and [timeoutFunction] an earlier
    request left. *)
Theorem middleware_shared_fields this1 this2 w req res :
  config this1 = config this2 ->
  _fileHeaders this1 = _fileHeaders this2 ->
  (middleware this1 w req res).2 = (middleware this2 w req res).2
  /\ (middleware this1 w req res).1.2 = (middleware this2 w req res).1.2.
Proof.
  destruct this1 as [c1 t1 n1 p1 h1], this2 as [c2 t2 n2 p2 h2]. simpl.
  intros -> ->. unfold middleware, respondWith404, getImg. simpl.
  destruct (sendFile _ _ _ _) as [r []]; simpl; [|done].
  destruct (archiveExists _ _); simpl; [|done].
  by destruct (sharp w _ _).
Qed.

Lemma writable_dir_decide fs dir : writable_dir fs dir \/ ~ writable_dir fs dir.
Proof.
  unfold writable_dir.
  destruct (fs !! dir) as [[[] []]|]; [left; eauto|right..];
    intros (n & Hn & Hdir & Hwritable); simplify_eq; discriminate.
Qed.

Lemma validateWritableDir_passes fs dir this :
  writable_dir fs dir -> validateWritableDir fs dir this = (this, Normal tt).
Proof.
  intros (n & Hn & Hdir & Hwritable).
  unfold validateWritableDir, existsSync, isDirectory, accessSync_W_OK.
  by rewrite Hn, Hdir, Hwritable.
Qed.

Lemma validateWritableDir_throws fs dir this :
  ~ writable_dir fs dir ->
  exists error, validateWritableDir fs dir this = (this, Throw error).
Proof.
  intros Hnot.
  unfold validateWritableDir, existsSync, isDirectory, accessSync_W_OK, writable_dir in *.
  destruct (fs !! dir) as [[[] []]|]; simpl; eauto.
  destruct Hnot. eauto.
Qed.

Lemma validateDefaultImgExists_outcome fs file this :
  validateDefaultImgExists fs file this
  = (this,
     if negb (returns404 (config this)) && negb (existsSync fs file)
     then Throw (file +:+ " does not exist") else Normal tt).
Proof.
  unfold validateDefaultImgExists, bind, read, archiveExists. simpl.
  by destruct (_ && _).
Qed.

(** The statements of [init], one after the other. *)
Lemma init_steps fs now config this :
  init fs now config this =
  match validateWritableDir fs (cacheDir config)
          (set_config (spread_config _defaultConfig config) this) with
  | (this1, Normal _) =>
      match validateWritableDir fs (imgPath config) this1 with
      | (this2, Normal _) =>
          match setFileHeaders now this2 with
          | (this3, Normal _) =>
              validateDefaultImgExists fs (defaultImg config) this3
          | (this3, Throw e) => (this3, Throw e)
          end
      | (this2, Throw e) => (this2, Throw e)
      end
  | (this1, Throw e) => (this1, Throw e)
  end.
Proof. reflexivity. Qed.

Lemma returns404_spread config :
  returns404 (spread_config _defaultConfig config) = true
  <-> return404 config = Some true.
Proof.
  unfold returns404, spread_config. simpl.
  destruct (return404 config) as [[]|]; simpl; split; congruence.
Qed.

(** Startup succeeds, that is, the promise of [init] is fulfilled, exactly
    when the cache directory and the image directory exist, are directories
    and are writable, and either return404 is set or the fallback image
    exists. *)
Theorem new_ImgServer_fulfilled fs now cfg :
  (new_ImgServer fs now cfg).2 = Fulfilled tt
  <-> writable_dir fs (cacheDir cfg)
      /\ writable_dir fs (imgPath cfg)
      /\ (return404 cfg = Some true \/ is_Some (fs !! defaultImg cfg)).
Proof.
  unfold new_ImgServer. rewrite init_steps.
  set (this0 := set_config _ allocated).
  destruct (writable_dir_decide fs (cacheDir cfg)) as [Hcache|Hcache].
  2:{ destruct (validateWritableDir_throws fs (cacheDir cfg) this0 Hcache) as [e ->].
      simpl. split; [discriminate|]. by intros (? & _). }
  rewrite (validateWritableDir_passes _ _ this0 Hcache).
  destruct (writable_dir_decide fs (imgPath cfg)) as [Himg|Himg].
  2:{ destruct (validateWritableDir_throws fs (imgPath cfg) this0 Himg) as [e ->].
      simpl. split; [discriminate|]. by intros (_ & ? & _). }
  rewrite (validateWritableDir_passes _ _ this0 Himg).
  change (setFileHeaders now this0) with
    (set_fileHeaders
       {| Cache_Control := "public, max-age=" +:+ NumberToString (cacheTime (config this0));
          Expires := toUTCString (now + cacheTime (config this0))%float |} this0,
     Normal tt).
  cbv beta iota. rewrite validateDefaultImgExists_outcome. simpl.
  pose proof (returns404_spread cfg) as H404.
  unfold existsSync.
  destruct (returns404 (spread_config _defaultConfig cfg)),
    (fs !! defaultImg cfg) as [d|]; simpl.
  - split; [intros _|done]. repeat split; try assumption. left. by apply H404.
  - split; [intros _|done]. repeat split; try assumption. left. by apply H404.
  - split; [intros _|done]. repeat split; try assumption. right. by exists d.
  - split; [discriminate|]. intros (_ & _ & [H1|[d Hd]]); [|discriminate].
    apply H404 in H1. discriminate.
Qed.

(** A start that fails on a directory leaves a server without cache
    lifetimes. When the cache directory or the image directory does not
    pass, the constructor still returns the object, with the merged
    configuration and a rejected promise; [setFileHeaders] has not run, so
    the two headers are the empty strings of the field initialiser, and on
    every success path the Cache-Control of the reply is the
    [public, max-age=0] of Express instead of the configured lifetime. *)
Theorem new_ImgServer_without_headers fs now cfg :
  ~ (writable_dir fs (cacheDir cfg) /\ writable_dir fs (imgPath cfg)) ->
  exists this error,
    new_ImgServer fs now cfg = (Normal this, Rejected error)
    /\ config this = spread_config _defaultConfig cfg
    /\ _fileHeaders this = {| Cache_Control := ""; Expires := "" |}
    /\ forall w req res,
         finished res = false -> succeeds this w req ->
         headers (middleware this w req res).2 !! "Cache-Control"
         = Some "public, max-age=0".
Proof.
  intros Hdirs.
  set (this0 := set_config (spread_config _defaultConfig cfg) allocated).
  assert (exists error, init fs now cfg allocated = (this0, Throw error))
    as [error Hinit].
  { rewrite init_steps. fold this0.
    destruct (writable_dir_decide fs (cacheDir cfg)) as [Hcache|Hcache].
    2:{ destruct (validateWritableDir_throws fs (cacheDir cfg) this0 Hcache) as [e ->].
        by exists e. }
    rewrite (validateWritableDir_passes _ _ this0 Hcache).
    destruct (writable_dir_decide fs (imgPath cfg)) as [Himg|Himg]; [tauto|].
    destruct (validateWritableDir_throws fs (imgPath cfg) this0 Himg) as [e ->].
    by exists e. }
  exists this0, error. unfold new_ImgServer. rewrite Hinit.
  repeat split. intros w req res Hres Hwhy.
  rewrite middleware_success by assumption.
  by rewrite (proj1 (success_response_headers _ _ _)).
Qed.

End ServerRules.

Section Runs.

#[local] Existing Instance Example.platform.

Lemma Num_inj a b : JS.Num a = JS.Num b -> a = b.
Proof.
  intros E. exact (f_equal (fun v => match v with JS.Num n => n | _ => a end) E).
Qed.

(** C1, the counterexample: [width=0] is present, numeric and below 1920,
    and the resolved width is 1920, not 0. *)
Lemma width_zero_falls_back :
  ~ (forall P : Platform, converts_decimal ->
     forall this query,
       bounded_rule_as_stated (requested query "width") (maxWidth (config this))
         (resolved this query "width")).
Proof.
  intros claim.
  destruct (claim Example.platform example_converts_decimal
              Example.server {[ "width" := JS.Str "0" ]}) as [requested_wins _].
  apply (Num_neq_by PrimFloat.is_zero 1920 0); [discriminate|].
  apply requested_wins. repeat split; try discriminate; reflexivity.
Qed.

(** C1, a run of the theorem: [width=5000] at the server of [src/app.ts]. *)
Lemma parseOptions_width_height_app :
  bounded_rule (requested {[ "width" := JS.Str "5000" ]} "width")
    (maxWidth (config Example.server))
    (resolved Example.server {[ "width" := JS.Str "5000" ]} "width")
  /\ bounded_rule (requested {[ "width" := JS.Str "5000" ]} "height")
       (maxHeight (config Example.server))
       (resolved Example.server {[ "width" := JS.Str "5000" ]} "height")
  /\ (converts_decimal ->
      ({[ "width" := JS.Str "5000" ]} : gmap string JS.Value) !! "width"
        = Some (JS.Str "5000") ->
      resolved Example.server {[ "width" := JS.Str "5000" ]} "width" = JS.Num 1920).
Proof.
  apply (parseOptions_width_height Example.server {[ "width" := JS.Str "5000" ]});
    reflexivity.
Defined.

(** C3, the counterexample: [width=-5] resolves to the width -5, which is
    not in 1..maxWidth. *)
Lemma negative_width_resolved :
  ~ (forall P : Platform, converts_decimal ->
     forall this query,
       resolved_invariant_as_stated (config this) (parseOptions this query)).
Proof.
  intros claim.
  destruct (claim Example.platform example_converts_decimal
              Example.server {[ "width" := JS.Str "-5" ]})
    as (w & h & q & e & m & Efields & [Hlow _] & _).
  apply (f_equal (fun o => JS.get o "width")) in Efields.
  vm_compute in Efields. apply Num_inj in Efields. subst w.
  vm_compute in Hlow. discriminate.
Qed.

(** C3, a run of the theorem: the same request at the server of
    [src/app.ts]. *)
Lemma parseOptions_invariant_app :
  resolved_invariant (config Example.server)
    (parseOptions Example.server {[ "width" := JS.Str "-5" ]}).
Proof.
  apply (parseOptions_invariant Example.server). repeat split; reflexivity.
Defined.

(** C4, a run of the theorem: a server configured for PNG only. *)
Lemma parseOptions_format_png_only :
  resolved Example.png_server ∅ "ext" = JS.Str "webp"
  /\ resolved Example.png_server {[ "ext" := JS.Str "webp" ]} "ext" = JS.Str "webp"
  /\ "webp" ∉ allowedExts (config Example.png_server).
Proof.
  apply (parseOptions_format_not_configured Example.png_server); reflexivity.
Defined.

(** C5, a run of the theorem: two servers with different configurations, and
    two queries that resolve alike. *)
Lemma loadCacheName_deterministic_app :
  loadCacheName "/photo.jpg" (parseOptions Example.server {[ "width" := JS.Str "5000" ]})
  = loadCacheName "/photo.jpg" (parseOptions Example.png_server ∅).
Proof.
  apply loadCacheName_deterministic; [reflexivity|].
  intros k _. reflexivity.
Defined.

(** C6, a run of the theorem: widths 640 and 800. *)
Lemma loadCacheName_injective_app :
  loadCacheName "/photo.jpg" (parseOptions Example.server {[ "width" := JS.Str "640" ]})
  <> loadCacheName "/photo.jpg" (parseOptions Example.server {[ "width" := JS.Str "800" ]}).
Proof.
  apply loadCacheName_injective.
  - intros k Hk.
    repeat (apply elem_of_cons in Hk as [->|Hk];
            [vm_compute; repeat split; try reflexivity; discriminate|]).
    by apply elem_of_nil in Hk.
  - intros E. vm_compute in E. discriminate.
  - intros E. apply (f_equal (fun o => JS.get o "width")) in E.
    revert E. apply (Num_neq_by (fun n => PrimFloat.ltb n 700)). discriminate.
Defined.

(** The collision that C6 sets aside: with the slug step as section 4.2
    words it, the widths -5 and 5 get one key. *)
Lemma slug_merges_negative_width :
  parseOptions Example.server {[ "width" := JS.Str "-5" ]}
  <> parseOptions Example.server {[ "width" := JS.Str "5" ]}
  /\ loadCacheName "/photo.jpg" (parseOptions Example.server {[ "width" := JS.Str "-5" ]})
     = loadCacheName "/photo.jpg" (parseOptions Example.server {[ "width" := JS.Str "5" ]}).
Proof.
  split; [|vm_compute; reflexivity].
  intros E. apply (f_equal (fun o => JS.get o "width")) in E.
  revert E. apply (Num_neq_by (fun n => PrimFloat.ltb n 0)). discriminate.
Qed.

(** C10, a run of the theorem: two paths without an extension. *)
Lemma loadCacheName_without_extension_app :
  JS.lastIndexOf "/photo" "." = (-1)%Z
  /\ JS.substring "/photo" 0 (JS.lastIndexOf "/photo" ".") = ""
  /\ loadCacheName "/photo" (parseOptions Example.server ∅)
     = loadCacheName "/banner" (parseOptions Example.server ∅).
Proof.
  apply loadCacheName_without_extension; reflexivity.
Defined.



(** A timeout at the server of [src/app.ts]. *)
Lemma middleware_timeout_photo :
  (middleware Example.server Example.slow_world Example.photo Example.fresh).2
  = respondWith404 Example.server (disk Example.slow_world) Example.fresh
  /\ (middleware Example.server Example.slow_world Example.photo Example.fresh).2
     = failure_response Example.server (disk Example.slow_world) Example.fresh
  /\ (returns404 (config Example.server) = false ->
      sendable (disk Example.slow_world) (fallback_file Example.server) = true ->
      body (middleware Example.server Example.slow_world Example.photo Example.fresh).2
      = Some (File (fallback_file Example.server))
      /\ headers (middleware Example.server Example.slow_world Example.photo Example.fresh).2
           !! "Cache-Control" = Some "public, max-age=0"
      /\ headers (middleware Example.server Example.slow_world Example.photo Example.fresh).2
           !! "Expires" = None)
  /\ (middleware Example.server Example.slow_world Example.photo Example.fresh).1.2
     = <[cache_file Example.server Example.photo := regular_file]>
         (disk Example.slow_world).
Proof.
  apply middleware_timeout; reflexivity.
Defined.

(** A cache miss that is transformed in time, at the server of
    [src/app.ts]. *)
Lemma middleware_success_photo :
  body (middleware Example.server Example.world Example.photo Example.fresh).2
  = Some (File (cache_file Example.server Example.photo))
  /\ headers (middleware Example.server Example.world Example.photo Example.fresh).2
       !! "Cache-Control"
     = Some (if String.eqb (Cache_Control (_fileHeaders Example.server)) ""
             then "public, max-age=0"
             else Cache_Control (_fileHeaders Example.server))
  /\ headers (middleware Example.server Example.world Example.photo Example.fresh).2
       !! "Expires"
     = Some (Expires (_fileHeaders Example.server)).
Proof.
  apply middleware_success_headers; [reflexivity|].
  right. repeat split; reflexivity.
Defined.



(** C8, a run of the theorem: the server of [src/app.ts] on an empty disk. *)
Lemma new_ImgServer_empty_disk :
  new_ImgServer ∅ 0 app_config
  = (Normal (set_config (spread_config _defaultConfig app_config) allocated),
     Rejected (cacheDir app_config +:+ " does not exist")).
Proof.
  apply new_ImgServer_missing_cacheDir. reflexivity.
Defined.

(** C2, a run of the theorem: a cache miss that is transformed. *)
Lemma app_Cache_Control_photo :
  exists this,
    (server Example.files 0).1 = Normal this
    /\ Cache_Control (_fileHeaders this) = "public, max-age=604800000"
    /\ Cache_Control (_fileHeaders this) <> "public, max-age=604800"
    /\ (finished Example.fresh = false -> succeeds this Example.world Example.photo ->
        headers (middleware this Example.world Example.photo Example.fresh).2
          !! "Cache-Control"
        = Some "public, max-age=604800000").
Proof.
  apply (app_Cache_Control Example.files 0 Example.world Example.photo Example.fresh).
  - exact example_prints_integers.
  - reflexivity.
  - reflexivity.
Defined.

(** Two queries that differ in a key the resolver does not read. *)
Lemma parseOptions_reads_five_keys_app :
  parseOptions Example.server {[ "width" := JS.Str "640" ]}
  = parseOptions Example.server
      (<["utm_source" := JS.Str "mail"]> {[ "width" := JS.Str "640" ]}).
Proof.
  apply parseOptions_reads_five_keys. intros k Hk.
  repeat (apply elem_of_cons in Hk as [->|Hk]; [reflexivity|]).
  by apply elem_of_nil in Hk.
Defined.

(** An empty width and an unknown key: the defaults. *)
Lemma parseOptions_defaults_app :
  parseOptions Example.server Example.tracking_query =
    [("width", JS.Num 1920); ("height", JS.Num 1080); ("quality", JS.Num 80);
     ("ext", JS.Str "webp"); ("resizeMode", JS.Str "cover")].
Proof.
  apply parseOptions_defaults. intros k Hk.
  repeat (apply elem_of_cons in Hk as [->|Hk];
          [first [left; reflexivity|right; reflexivity]|]).
  by apply elem_of_nil in Hk.
Defined.

(** [/photo.jpg] and [/photo.png] get one key. *)
Lemma loadCacheName_ignores_extension_app :
  JS.substring ("/photo" +:+ String "." "jpg") 0
    (JS.lastIndexOf ("/photo" +:+ String "." "jpg") ".") = "/photo"
  /\ loadCacheName ("/photo" +:+ String "." "jpg") (parseOptions Example.server ∅)
     = loadCacheName ("/photo" +:+ String "." "png") (parseOptions Example.server ∅).
Proof.
  apply loadCacheName_ignores_extension; reflexivity.
Defined.

(** The first request for [/photo.jpg] writes its cache file. *)
Lemma middleware_disk_photo :
  (fills_cache Example.server Example.world Example.photo ->
   (middleware Example.server Example.world Example.photo Example.fresh).1.2
   = <[cache_file Example.server Example.photo := regular_file]> (disk Example.world))
  /\ (~ fills_cache Example.server Example.world Example.photo ->
      (middleware Example.server Example.world Example.photo Example.fresh).1.2
      = disk Example.world).
Proof.
  apply middleware_disk. reflexivity.
Defined.

(** The second request for [/photo.jpg] is a hit, though the codec would fail
    and the timer would run out. *)
Lemma middleware_fill_then_hit_photo :
  (middleware
     (middleware Example.server Example.world Example.photo Example.fresh).1.1
     Example.later_world Example.photo Example.fresh).2
  = success_response Example.server Example.photo Example.fresh
  /\ (middleware
        (middleware Example.server Example.world Example.photo Example.fresh).1.1
        Example.later_world Example.photo Example.fresh).1.2
     = disk Example.later_world
  /\ timeoutFunction
       (middleware
          (middleware Example.server Example.world Example.photo Example.fresh).1.1
          Example.later_world Example.photo Example.fresh).1.1
     = timeoutFunction
         (middleware Example.server Example.world Example.photo Example.fresh).1.1.
Proof.
  apply middleware_fill_then_hit; try reflexivity.
  repeat split; vm_compute; reflexivity.
Defined.

(** [/photo.png] is not on the disk, and is answered with the cache file of
    [/photo.jpg]. *)
Lemma middleware_other_extension_photo :
  (middleware Example.server Example.later_world
     (request ("/photo" +:+ String "." "png") ∅) Example.fresh).2
  = success_response Example.server
      (request ("/photo" +:+ String "." "jpg") ∅) Example.fresh.
Proof.
  apply middleware_other_extension; reflexivity.
Defined.

(** A request at the server as constructed, and at the server an earlier
    request has left. *)
Lemma middleware_shared_fields_app :
  (middleware Example.server Example.world Example.missing Example.fresh).2
  = (middleware
       (middleware Example.server Example.world Example.photo Example.fresh).1.1
       Example.world Example.missing Example.fresh).2
  /\ (middleware Example.server Example.world Example.missing Example.fresh).1.2
     = (middleware
          (middleware Example.server Example.world Example.photo Example.fresh).1.1
          Example.world Example.missing Example.fresh).1.2.
Proof.
  apply middleware_shared_fields; vm_compute; reflexivity.
Defined.

(** The server of [src/app.ts] on a disk whose image directory is
    read-only. *)
Lemma new_ImgServer_readonly_uploads :
  exists this error,
    new_ImgServer Example.readonly_uploads 0 app_config = (Normal this, Rejected error)
    /\ config this = spread_config _defaultConfig app_config
    /\ _fileHeaders this = {| Cache_Control := ""; Expires := "" |}
    /\ forall w req res,
         finished res = false -> succeeds this w req ->
         headers (middleware this w req res).2 !! "Cache-Control"
         = Some "public, max-age=0".
Proof.
  apply new_ImgServer_without_headers.
  intros [_ (n & Hn & _ & Hwritable)].
  vm_compute in Hn. injection Hn as <-. discriminate Hwritable.
Defined.

End Runs.
